(** * Event extraction and dictionary-key derivation of the CEP-47 client helpers

    A shallow embedding of [parseEvent] and [getDictionaryKeyHash]
    (utils.ts) together with the enumeration of event names (constants.ts).

    Conventions of the embedding:
    - a JavaScript string is a [string]: the sequence of its UTF-8 bytes;
    - a Buffer or Uint8Array is a [list byte];
    - a call that may throw returns in the exception monad [Exc];
    - an object literal is a [JsObject]: the list of its properties, in
      the order of the literal;
    - the payload is typed after the node's DeployProcessed event: a
      property that the code reads is a field, a property that it tests
      is an option;
    - the functions of casper-js-sdk and blakejs the code calls are taken
      as parameters: the fields of the class [Collaborators]. *)

From Stdlib Require Import Strings.String Strings.Ascii Strings.Byte List Bool NArith PeanoNat Lia.
Import ListNotations.
Set Warnings "-register-all".
Local Open Scope string_scope.
Local Open Scope list_scope.

(** ** Exceptions *)

Inductive exn : Type :=
| TypeError (message : string)
| Error (message : string).

Inductive Exc (A : Type) : Type :=
| Ret (a : A)
| Throw (e : exn).

Arguments Ret {A} a.
Arguments Throw {A} e.

Definition bind {A B : Type} (m : Exc A) (k : A -> Exc B) : Exc B :=
  match m with
  | Ret a => k a
  | Throw e => Throw e
  end.

Notation "x <- m ;; k" := (bind m (fun x => k))
  (at level 61, m at next level, right associativity).

Definition returns {A : Type} (m : Exc A) : Prop := exists a, m = Ret a.
Definition throws {A : Type} (m : Exc A) : Prop := exists e, m = Throw e.

(** ts-results: [Result<T, E>] and its [unwrap], which throws on [Err]. *)
Inductive Result (T E : Type) : Type :=
| Ok (val : T)
| Err (val : E).

Arguments Ok {T E} val.
Arguments Err {T E} val.

Definition unwrap {T : Type} (r : Result T string) : Exc T :=
  match r with
  | Ok v => Ret v
  | Err e => Throw (Error (String.append "Tried to unwrap Error: " e))
  end.

(** ** Buffers and their hexadecimal encoding *)

(** [Buffer.from(s)] on a string: its UTF-8 bytes. *)
Definition Buffer_from_string (s : string) : list byte := list_byte_of_string s.

Definition hex_digit (n : N) : ascii :=
  match String.get (N.to_nat n) "0123456789abcdef" with
  | Some c => c
  | None => "0"%char
  end.

Definition hex_of_byte (b : byte) : string :=
  let n := Byte.to_N b in
  String (hex_digit (N.div n 16)) (String (hex_digit (N.modulo n 16)) EmptyString).

(** [buf.toString("hex")]. *)
Fixpoint toString_hex (buf : list byte) : string :=
  match buf with
  | [] => EmptyString
  | b :: rest => String.append (hex_of_byte b) (toString_hex rest)
  end.

Definition hex_value (c : ascii) : option N :=
  let n := N_of_ascii c in
  if (48 <=? n)%N && (n <=? 57)%N then Some (n - 48)%N
  else if (97 <=? n)%N && (n <=? 102)%N then Some (n - 87)%N
  else if (65 <=? n)%N && (n <=? 70)%N then Some (n - 55)%N
  else None.

(** [Buffer.from(s, "hex")]: pairs of hexadecimal digits are decoded up to
    the first pair that is not one; a trailing single character is
    dropped. It never throws on a string. *)
Fixpoint Buffer_from_hex (s : string) : list byte :=
  match s with
  | String hi (String lo rest) =>
      match hex_value hi, hex_value lo with
      | Some h, Some l =>
          match Byte.of_N (16 * h + l) with
          | Some b => b :: Buffer_from_hex rest
          | None => []
          end
      | _, _ => []
      end
  | _ => []
  end.

Definition lower_hex_char (c : ascii) : bool :=
  let n := N_of_ascii c in
  ((48 <=? n)%N && (n <=? 57)%N) || ((97 <=? n)%N && (n <=? 102)%N).

(** [s.startsWith(p)]. *)
Definition startsWith (s p : string) : bool := String.prefix p s.

(** ** Typed values of the SDK *)

(** The fragment of the SDK's [CLValue] classes that event dictionaries
    are made of: booleans, numbers (one constructor for all widths, their
    [value()] is a BigNumber object), strings, options and maps. A map
    keeps its entries in insertion order. The other classes (lists,
    tuples, keys, ...) are left out. *)
Inductive CLValue : Type :=
| CLBool (b : bool)
| CLU512 (n : N)
| CLString (s : string)
| CLOption (inner : option CLValue)
| CLMap (entries : list (CLValue * CLValue)).

(** What [CLValue.value()] returns: a boolean, a BigNumber object, a
    string, an Option object of ts-results, and for a map the Array of its
    entries. *)
Inductive Data : Type :=
| DBoolean (b : bool)
| DBigNumber (n : N)
| DString (s : string)
| DOption (o : option CLValue)
| DMap (entries : list (CLValue * CLValue)).

Definition CLValue_value (v : CLValue) : Data :=
  match v with
  | CLBool b => DBoolean b
  | CLU512 n => DBigNumber n
  | CLString s => DString s
  | CLOption o => DOption o
  | CLMap entries => DMap entries
  end.

(** [d === s] for a string [s]. *)
Definition strict_eq_string (d : Data) (s : string) : bool :=
  match d with
  | DString s' => String.eqb s' s
  | _ => false
  end.

(** [CLMap.get(CLValueBuilder.string(k))]: the value of the first entry
    whose key's [value()] is strictly equal to [k]; [None] is undefined. *)
Fixpoint CLMap_get (entries : list (CLValue * CLValue)) (k : string) : option CLValue :=
  match entries with
  | [] => None
  | (key, v) :: rest =>
      if strict_eq_string (CLValue_value key) k then Some v else CLMap_get rest k
  end.

(** [clOption.some ? clOption.unwrap() : null] (line 154). On an Option
    object [some] is a boolean. On the Array of a map [some] is the method
    of arrays, which is truthy, and the call of [unwrap], which an Array
    has not, throws a TypeError. On a boolean, a BigNumber and a string
    the property is undefined. *)
Definition some_or_null (clOption : Data) : Exc (option CLValue) :=
  match clOption with
  | DOption (Some v) => Ret (Some v)
  | DOption None => Ret None
  | DMap _ => Throw (TypeError "clOption.unwrap is not a function")
  | DBoolean _ | DBigNumber _ | DString _ => Ret None
  end.

(** [Buffer.from(x)] on what [value()] returned: the bytes of a string;
    for the Array of a map one byte an element, which is 0 since an
    entry converts to no number; a TypeError on a boolean, a BigNumber
    and an Option object. *)
Definition Buffer_from (x : Data) : Exc (list byte) :=
  match x with
  | DString s => Ret (Buffer_from_string s)
  | DMap entries => Ret (repeat x00 (length entries))
  | DBoolean _ | DBigNumber _ | DOption _ => Throw (TypeError "The first argument must be of type string or an instance of Buffer, ArrayBuffer, or Array or an Array-like Object.")
  end.

(** [CLURef.value()]. *)
Record CLURefValue : Type := {
  data : list byte;
  accessRights : N
}.

(** ** JavaScript values built by the extractor *)

Inductive JsValue : Type :=
| JsNull
| JsBoolean (b : bool)
| JsString (s : string)
| JsBigNumber (n : N)
| JsOption (o : option CLValue)
| JsMap (entries : list (CLValue * CLValue))
| JsCLValue (v : CLValue)
| JsArray (elements : list JsValue)
| JsObject (properties : list (string * JsValue)).

Definition js_of_data (d : Data) : JsValue :=
  match d with
  | DBoolean b => JsBoolean b
  | DBigNumber n => JsBigNumber n
  | DString s => JsString s
  | DOption o => JsOption o
  | DMap entries => JsMap entries
  end.

(** Own-property lookup on an object literal. *)
Fixpoint get_property (properties : list (string * JsValue)) (name : string) : option JsValue :=
  match properties with
  | [] => None
  | (n, v) :: rest => if String.eqb n name then Some v else get_property rest name
  end.

Definition property_names (v : JsValue) : list string :=
  match v with
  | JsObject properties => map fst properties
  | _ => []
  end.

(** ** constants.ts *)

Inductive CEP47Events : Type :=
| MintOne
| TransferToken
| BurnOne
| MetadataUpdate.

Definition CEP47Events_value (e : CEP47Events) : string :=
  match e with
  | MintOne => "cep47_mint_one"
  | TransferToken => "cep47_transfer_token"
  | BurnOne => "cep47_burn_one"
  | MetadataUpdate => "cep47_metadata_update"
  end.

(** [eventNames.includes(x)]. *)
Definition includes (eventNames : list CEP47Events) (x : Data) : bool :=
  existsb (fun e => strict_eq_string x (CEP47Events_value e)) eventNames.

(** ** The deploy-processed payload *)

(** A JSON value, as far as the payload carries free-form JSON. *)
Inductive Json : Type :=
| JsonNull
| JsonBoolean (b : bool)
| JsonNumber (literal : string)
| JsonString (s : string)
| JsonArray (elements : list Json)
| JsonObject (members : list (string * Json)).

(** The object under the [WriteCLValue] property of a transform. The
    property [parsed] may be missing ([None], read as undefined), null
    ([Some JsonNull]) or any other JSON value. *)
Record WriteCLValue : Type := {
  bytes : string;
  parsed : option Json
}.

(** [val.transform]: it has an own property [WriteCLValue] or it has not
    (a bare name such as "Identity", or an object with another tag). *)
Inductive Transform : Type :=
| OtherTransform (tag : string)
| WriteCLValueTransform (w : WriteCLValue).

Record TransformRecord : Type := {
  key : string;
  transform : Transform
}.

Record Effect : Type := { transforms : list TransformRecord }.
Record SuccessResult : Type := { effect : Effect }.
Record FailureResult : Type := { error_message : string }.

(** [execution_result]: the code tests the property [Failure] for
    truthiness and otherwise reads [Success]; each may be present or
    missing. *)
Record ExecutionResult : Type := {
  Failure : option FailureResult;
  Success : option SuccessResult
}.

Record DeployProcessedT : Type := { execution_result : ExecutionResult }.
Record Body : Type := { DeployProcessed : DeployProcessedT }.
Record Payload : Type := { body : Body }.

(** The first argument of [parseEvent]. *)
Record Subscription : Type := {
  contractPackageHash : string;
  eventNames : list CEP47Events;
  eventsURef : string
}.

(** ** The functions of casper-js-sdk and blakejs *)

Class Collaborators : Type := {
  (** [CLValueParsers.fromBytesWithType]: a decoder failure is [Err]. *)
  CLValueParsers_fromBytesWithType : list byte -> Result CLValue string;
  (** [CLURef.fromFormattedStr(s).value()]: throws on a string that is
      not a formatted reference. *)
  CLURef_fromFormattedStr : string -> Exc CLURefValue;
  (** [blake.blake2b(input, key, outlen)]. *)
  blake_blake2b : list byte -> option (list byte) -> nat -> list byte
}.

Section Core.

Context {sdk : Collaborators}.

(** ** getDictionaryKeyHash (lines 223-232) *)

Definition getDictionaryKeyHash (uref : string) (id : Data) : Exc string :=
  eventsUref <- CLURef_fromFormattedStr uref ;;
  let eventsUrefBytes := data eventsUref in
  idNum <- Buffer_from id ;;
  let finalBytes := concat [eventsUrefBytes; idNum] in
  let blaked := blake_blake2b finalBytes None 32 in
  let str := toString_hex blaked in
  Ret (String.append "dictionary-" str).

(** ** parseEvent (lines 128-179) *)

(** [x === null] on a property that may be missing. *)
Definition strict_null (x : option Json) : bool :=
  match x with
  | Some JsonNull => true
  | _ => false
  end.

(** The condition of lines 146-150; it gives the [WriteCLValue] object of
    a transform that passes it. *)
Definition candidate (val : TransformRecord) : option WriteCLValue :=
  if startsWith (key val) "dictionary" then
    match transform val with
    | WriteCLValueTransform w => if strict_null (parsed w) then Some w else None
    | OtherTransform _ => None
    end
  else None.

(** The object literal of line 170. *)
Definition event_entry (name : Data) (clValue : CLValue) : JsValue :=
  JsObject [("name", js_of_data name); ("clValue", JsCLValue clValue)].

(** The callback of [transforms.reduce] (lines 145-175). *)
Definition reducer (sub : Subscription) (acc : list JsValue) (val : TransformRecord)
  : Exc (list JsValue) :=
  match candidate val with
  | Some w =>
      let byteArray := Buffer_from_hex (bytes w) in
      let maybeCLOption := CLValueParsers_fromBytesWithType byteArray in
      decoded <- unwrap maybeCLOption ;;
      let clOption := CLValue_value decoded in
      clValue <- some_or_null clOption ;;
      match clValue with
      | Some (CLMap entries) =>
          let hash := CLMap_get entries "contract_package_hash" in
          let id := CLMap_get entries "event_id" in
          let event := CLMap_get entries "event_type" in
          match id with
          | Some id' =>
              derived <- getDictionaryKeyHash (eventsURef sub) (CLValue_value id') ;;
              match hash, event with
              | Some hash', Some event' =>
                  if String.eqb derived (key val)
                     && strict_eq_string (CLValue_value hash') (contractPackageHash sub)
                     && includes (eventNames sub) (CLValue_value event')
                  then Ret (acc ++ [event_entry (CLValue_value event') (CLMap entries)])
                  else Ret acc
              | _, _ => Ret acc
              end
          | None => Ret acc
          end
      | _ => Ret acc
      end
  | None => Ret acc
  end.

(** [list.reduce(f, init)], with a callback that may throw. *)
Fixpoint reduce {A B : Type} (f : B -> A -> Exc B) (l : list A) (init : B) : Exc B :=
  match l with
  | [] => Ret init
  | x :: rest => acc <- f init x ;; reduce f rest acc
  end.

(** The object literals of lines 137-140 and 177. *)
Definition failure_result (error : string) : JsValue :=
  JsObject [("error", JsString error); ("success", JsBoolean false)].

Definition success_result (cep47Events : list JsValue) : JsValue :=
  JsObject [("error", JsNull);
            ("success", JsBoolean (negb (Nat.eqb (length cep47Events) 0)));
            ("data", JsArray cep47Events)].

Definition parseEvent (sub : Subscription) (value : Payload) : Exc JsValue :=
  let result := execution_result (DeployProcessed (body value)) in
  match Failure result with
  | Some failure => Ret (failure_result (error_message failure))
  | None =>
      match Success result with
      | Some success =>
          cep47Events <- reduce (reducer sub) (transforms (effect success)) [] ;;
          Ret (success_result cep47Events)
      | None => Throw (TypeError "Cannot read properties of undefined (reading 'effect')")
      end
  end.

(** ** The filter protocol, as a relation *)

(** [Survives sub val entry]: the transform [val] passes every check of
    the filter (prefix, tag, null [parsed], an Option holding a map, the
    three fields, the re-derived key, the package hash, the event name)
    and [entry] is what it contributes. *)
Inductive Survives (sub : Subscription) (val : TransformRecord) : JsValue -> Prop :=
| Survives_intro (w : WriteCLValue) (entries : list (CLValue * CLValue))
    (id hash event : CLValue) (name : CEP47Events) :
    startsWith (key val) "dictionary" = true ->
    transform val = WriteCLValueTransform w ->
    parsed w = Some JsonNull ->
    CLValueParsers_fromBytesWithType (Buffer_from_hex (bytes w))
      = Ok (CLOption (Some (CLMap entries))) ->
    CLMap_get entries "event_id" = Some id ->
    CLMap_get entries "contract_package_hash" = Some hash ->
    CLMap_get entries "event_type" = Some event ->
    getDictionaryKeyHash (eventsURef sub) (CLValue_value id) = Ret (key val) ->
    CLValue_value hash = DString (contractPackageHash sub) ->
    CLValue_value event = DString (CEP47Events_value name) ->
    In name (eventNames sub) ->
    Survives sub val
      (JsObject [("name", JsString (CEP47Events_value name));
                 ("clValue", JsCLValue (CLMap entries))]).

(** [Scanned sub ts acc]: [acc] holds the entries of the surviving
    transforms of [ts], in the order of [ts]. *)
Inductive Scanned (sub : Subscription) : list TransformRecord -> list JsValue -> Prop :=
| Scanned_nil : Scanned sub [] []
| Scanned_skip (val : TransformRecord) (ts : list TransformRecord) (acc : list JsValue) :
    (forall entry, ~ Survives sub val entry) ->
    Scanned sub ts acc -> Scanned sub (val :: ts) acc
| Scanned_keep (val : TransformRecord) (ts : list TransformRecord) (entry : JsValue)
    (acc : list JsValue) :
    Survives sub val entry ->
    Scanned sub ts acc -> Scanned sub (val :: ts) (entry :: acc).

End Core.

(** ** The derivation as the specification words it *)

Definition spec_hex_digit (n : N) : ascii :=
  ascii_of_N (if (n <? 10)%N then 48 + n else 87 + n).

(** Lowercase hexadecimal: two digits a byte, the high one first. *)
Definition spec_lowercase_hex (digest : list byte) : string :=
  string_of_list_ascii
    (flat_map (fun b => [spec_hex_digit (Byte.to_N b / 16);
                         spec_hex_digit (Byte.to_N b mod 16)]) digest).

(** "dictionary-" before the lowercase hexadecimal 32-byte BLAKE2b digest
    of the seed bytes followed by the bytes of the event id. *)
Definition spec_deriveKey {sdk : Collaborators} (seedRefBytes : list byte) (eventId : string)
  : string :=
  String.append "dictionary-"
    (spec_lowercase_hex
       (blake_blake2b (seedRefBytes ++ list_byte_of_string eventId) None 32)).

(** ** Payload shapes *)

Definition outcome (value : Payload) : ExecutionResult :=
  execution_result (DeployProcessed (body value)).

Definition payload_of (result : ExecutionResult) : Payload :=
  {| body := {| DeployProcessed := {| execution_result := result |} |} |}.

(** A payload whose execution result is [{ Success: { effect: { transforms } } }]. *)
Definition successful (ts : list TransformRecord) : Payload :=
  payload_of {| Failure := None; Success := Some {| effect := {| transforms := ts |} |} |}.

(** A transform [{ key, transform: { WriteCLValue: { bytes, parsed } } }]. *)
Definition write_record (k b : string) (p : option Json) : TransformRecord :=
  {| key := k; transform := WriteCLValueTransform {| bytes := b; parsed := p |} |}.

(** ** Sample collaborators and inputs

    Stand-ins for the SDK on which the statements below are evaluated:
    a reference parser for "uref-", 64 hexadecimal digits, "-" and the
    access rights in octal, a decoder given by a table, and a digest that
    repeats a checksum. *)
Module Sample.

Definition octal_digit (c : ascii) : option N :=
  let n := N_of_ascii c in
  if (48 <=? n)%N && (n <=? 55)%N then Some (n - 48)%N else None.

(** The suffix of a formatted reference: "-" and three octal digits. *)
Definition access_rights (suffix : string) : option N :=
  match suffix with
  | String dash (String a (String b (String c EmptyString))) =>
      if Ascii.eqb dash "-" then
        match octal_digit a, octal_digit b, octal_digit c with
        | Some x, Some y, Some z => Some (64 * x + 8 * y + z)%N
        | _, _, _ => None
        end
      else None
  | _ => None
  end.

Definition fromFormattedStr (s : string) : Exc CLURefValue :=
  if startsWith s "uref-" then
    let addr := Buffer_from_hex (substring 5 64 s) in
    if Nat.eqb (length addr) 32 then
      match access_rights (substring 69 4 s) with
      | Some rights => Ret {| data := addr; accessRights := rights |}
      | None => Throw (Error "No access rights as suffix")
      end
    else Throw (Error "Invalid URef address")
  else Throw (Error "Prefix is not 'uref-'").

Definition checksum (input : list byte) : N :=
  fold_left (fun a b => ((31 * a + Byte.to_N b + 7) mod 256)%N) input 0%N.

Definition digest (input : list byte) (k : option (list byte)) (outlen : nat) : list byte :=
  match Byte.of_N (checksum input) with
  | Some b => repeat b outlen
  | None => repeat x00 outlen
  end.

Definition H : string := "aa11bb22cc33dd44ee55ff6600112233445566778899aabbccddeeff00112233".

Definition mint_entries : list (CLValue * CLValue) :=
  [(CLString "contract_package_hash", CLString H);
   (CLString "event_id", CLString "42");
   (CLString "event_type", CLString "cep47_mint_one");
   (CLString "recipient", CLString "account-hash-01")].

Definition no_id_entries : list (CLValue * CLValue) :=
  [(CLString "contract_package_hash", CLString H);
   (CLString "event_type", CLString "cep47_mint_one")].

(** A map whose [event_id] is itself a map. *)
Definition map_id_entries : list (CLValue * CLValue) :=
  [(CLString "event_id", CLMap [(CLString "number", CLString "42")])].

Definition fromBytesWithType (input : list byte) : Result CLValue string :=
  match input with
  | [x00] => Ok (CLOption None)
  | [x01] => Ok (CLOption (Some (CLMap mint_entries)))
  | [x02] => Ok (CLOption (Some (CLString "not a map")))
  | [x03] => Ok (CLOption (Some (CLMap no_id_entries)))
  | [x04] => Ok (CLMap mint_entries)
  | [x05] => Ok (CLOption (Some (CLMap map_id_entries)))
  | _ => Err "EarlyEndOfStream"
  end.

Definition sdk : Collaborators := {|
  CLValueParsers_fromBytesWithType := fromBytesWithType;
  CLURef_fromFormattedStr := fromFormattedStr;
  blake_blake2b := digest
|}.

Definition R : string :=
  "uref-0102030405060708090a0b0c0d0e0f101112131415161718191a1b1c1d1e1f20-007".

(** [CLURef.fromFormattedStr(R).value()]. *)
Definition ref : CLURefValue :=
  {| data := Buffer_from_hex "0102030405060708090a0b0c0d0e0f101112131415161718191a1b1c1d1e1f20";
     accessRights := 7 |}.

(** The same address with other access rights. *)
Definition R0 : string :=
  "uref-0102030405060708090a0b0c0d0e0f101112131415161718191a1b1c1d1e1f20-000".

Definition ref0 : CLURefValue :=
  {| data := Buffer_from_hex "0102030405060708090a0b0c0d0e0f101112131415161718191a1b1c1d1e1f20";
     accessRights := 0 |}.

Definition sub : Subscription :=
  {| contractPackageHash := H; eventNames := [MintOne]; eventsURef := R |}.

(** [deriveKey(R, "42")]. *)
Definition K : string :=
  Eval vm_compute in
    match getDictionaryKeyHash (sdk := sdk) R (DString "42") with
    | Ret k => k
    | Throw _ => EmptyString
    end.

Definition unrelated_key : string :=
  "dictionary-0000000000000000000000000000000000000000000000000000000000000000".

Definition mint : TransformRecord := write_record K "01" (Some JsonNull).
Definition spoofed : TransformRecord := write_record unrelated_key "01" (Some JsonNull).
Definition malformed : TransformRecord := write_record K "zz" (Some JsonNull).
Definition empty_option : TransformRecord := write_record K "00" (Some JsonNull).
Definition not_a_map : TransformRecord := write_record K "02" (Some JsonNull).
Definition without_id : TransformRecord := write_record K "03" (Some JsonNull).
Definition bare_map : TransformRecord := write_record K "04" (Some JsonNull).
Definition map_id : TransformRecord := write_record K "05" (Some JsonNull).
Definition parsed_missing : TransformRecord := write_record K "01" None.
Definition pre_parsed : TransformRecord :=
  write_record K "01" (Some (JsonString "already parsed")).
Definition balance : TransformRecord :=
  {| key := "balance-0101"; transform := OtherTransform "AddUInt512" |}.
Definition identity : TransformRecord :=
  {| key := "hash-0202"; transform := OtherTransform "Identity" |}.

Definition mint_entry : JsValue :=
  JsObject [("name", JsString "cep47_mint_one"); ("clValue", JsCLValue (CLMap mint_entries))].

Definition out_of_gas : Payload :=
  payload_of {| Failure := Some {| error_message := "Out of gas" |}; Success := None |}.

(** An execution result carrying both components. *)
Definition both : Payload :=
  payload_of {| Failure := Some {| error_message := "Out of gas" |};
                Success := Some {| effect := {| transforms := [malformed; mint] |} |} |}.

End Sample.

(** ** The other helpers of utils.ts *)

(** *** camelCased (lines 23-24) *)

Definition is_lower_letter (c : ascii) : bool :=
  let n := N_of_ascii c in (97 <=? n)%N && (n <=? 122)%N.

(** [x.toUpperCase()] on one letter of [a-z]. *)
Definition toUpperCase_letter (c : ascii) : ascii := ascii_of_N (N_of_ascii c - 32).

(** [myString.replace(/_([a-z])/g, (g) => g[1].toUpperCase())]: the
    matches are taken from left to right and do not overlap; what is not
    matched is kept. *)
Fixpoint camelCased (myString : string) : string :=
  match myString with
  | EmptyString => EmptyString
  | String c tail =>
      if Ascii.eqb c "_" then
        match tail with
        | String d rest =>
            if is_lower_letter d then String (toUpperCase_letter d) (camelCased rest)
            else String c (camelCased tail)
        | EmptyString => String c EmptyString
        end
      else String c (camelCased tail)
  end.

(** The string has a match of [/_[a-z]/]. *)
Fixpoint has_underscore_letter (s : string) : bool :=
  match s with
  | EmptyString => false
  | String c tail =>
      match tail with
      | String d _ => (Ascii.eqb c "_" && is_lower_letter d) || has_underscore_letter tail
      | EmptyString => false
      end
  end.

(** *** getAccountNamedKeyValue (lines 76-82) *)

Module Account.

Record NamedKey : Type := {
  name : string;
  key : string
}.

Record AccountInfo : Type := { namedKeys : list NamedKey }.

(** [None] is undefined. *)
Definition getAccountNamedKeyValue (accountInfo : AccountInfo) (namedKey : string)
  : option string :=
  match find (fun i => String.eqb (name i) namedKey) (namedKeys accountInfo) with
  | Some found => Some (key found)
  | None => None
  end.

End Account.

(** *** contractHashToByteArray (lines 121-122), toAccountHashString (lines 220-221) *)

Definition contractHashToByteArray (contractHash : string) : list byte :=
  Buffer_from_hex contractHash.

Definition toAccountHashString (hash : list byte) : string := toString_hex hash.

(** The string is made of pairs of hexadecimal digits. *)
Fixpoint hex_pairs (s : string) : bool :=
  match s with
  | EmptyString => true
  | String hi (String lo rest) =>
      match hex_value hi, hex_value lo with
      | Some _, Some _ => hex_pairs rest
      | _, _ => false
      end
  | String _ EmptyString => false
  end.

Definition lower_ascii (c : ascii) : ascii :=
  let n := N_of_ascii c in
  if (65 <=? n)%N && (n <=? 90)%N then ascii_of_N (n + 32) else c.

Fixpoint lower_string (s : string) : string :=
  match s with
  | EmptyString => EmptyString
  | String c rest => String (lower_ascii c) (lower_string rest)
  end.

(** *** Queries to a node (lines 50-69, 84-119) *)

Record BlockHeader : Type := { state_root_hash : string }.
Record Block : Type := { header : BlockHeader }.

(** The result of [getLatestBlockInfo]; [block] may be null. *)
Record GetBlockResult : Type := { block : option Block }.

(** A stored value: the properties [CLValue] and [Account], each present
    or not. *)
Record StoredValue : Type := {
  storedCLValue : option CLValue;
  Account : option Account.AccountInfo
}.

(** [CasperServiceByJsonRPC]: the answers of the node at an address. A
    rejected promise is [Throw]. *)
Class JsonRPC : Type := {
  getLatestBlockInfo : string -> Exc GetBlockResult;
  getBlockState : string -> string -> string -> list string -> Exc StoredValue;
  getDictionaryItemByURef : string -> string -> string -> string -> Exc (option StoredValue)
}.

Section Queries.

Context {rpc : JsonRPC}.

Definition getStateRootHash (nodeAddress : string) : Exc string :=
  latest <- getLatestBlockInfo nodeAddress ;;
  match block latest with
  | Some b => Ret (state_root_hash (header b))
  | None => Throw (Error "Problem when calling getLatestBlockInfo")
  end.

(** [accountHash] is [publicKey.toAccountHashStr()]. *)
Definition getAccountInfo (nodeAddress : string) (accountHash : string)
  : Exc (option Account.AccountInfo) :=
  stateRootHash <- getStateRootHash nodeAddress ;;
  blockState <- getBlockState nodeAddress stateRootHash accountHash [] ;;
  Ret (Account blockState).

Definition getContractData (nodeAddress stateRootHash contractHash : string)
    (path : list string) : Exc StoredValue :=
  blockState <- getBlockState nodeAddress stateRootHash
                  (String.append "hash-" contractHash) path ;;
  Ret blockState.

Definition contractDictionaryGetter (nodeAddress dictionaryItemKey seedUref : string)
  : Exc Data :=
  stateRootHash <- getStateRootHash nodeAddress ;;
  storedValue <- getDictionaryItemByURef nodeAddress stateRootHash dictionaryItemKey seedUref ;;
  match storedValue with
  | Some stored =>
      match storedCLValue stored with
      | Some v => Ret (CLValue_value v)
      | None => Throw (Error "Invalid stored value")
      end
  | None => Throw (Error "Invalid stored value")
  end.

End Queries.

(** A node with one block and one dictionary item. *)
Module SampleNode.

Definition root : string := "9f1e3ab2".

Definition rpc : JsonRPC := {|
  getLatestBlockInfo := fun nodeAddress =>
    if String.eqb nodeAddress "http://localhost:11101/rpc"
    then Ret {| block := Some {| header := {| state_root_hash := root |} |} |}
    else if String.eqb nodeAddress "http://localhost:11102/rpc"
    then Ret {| block := None |}
    else Throw (Error "connect ECONNREFUSED");
  getBlockState := fun nodeAddress stateRootHash k path =>
    if String.eqb stateRootHash root
    then Ret {| storedCLValue := None;
                Account := Some {| Account.namedKeys :=
                  [{| Account.name := "cep47_contract_hash"; Account.key := "hash-0101" |};
                   {| Account.name := "events"; Account.key := "uref-0202-007" |};
                   {| Account.name := "cep47_contract_hash"; Account.key := "hash-0303" |}] |} |}
    else Throw (Error "state query failed");
  getDictionaryItemByURef := fun nodeAddress stateRootHash itemKey seedUref =>
    if String.eqb stateRootHash root
    then if String.eqb itemKey "42"
         then Ret (Some {| storedCLValue := Some (CLOption (Some (CLMap Sample.mint_entries)));
                           Account := None |})
         else Ret (Some {| storedCLValue := None; Account := None |})
    else Throw (Error "state query failed")
|}.

End SampleNode.

(** * Properties *)

(** ** The exception monad *)

Lemma bind_Ret_inv {A B : Type} (m : Exc A) (k : A -> Exc B) (b : B) :
  (x <- m ;; k x) = Ret b -> exists a, m = Ret a /\ k a = Ret b.
Proof.
  destruct m as [a | e]; simpl; intros Hk.
  - exists a. split; [reflexivity | exact Hk].
  - discriminate Hk.
Qed.

Lemma bind_Throw_l {A B : Type} (m : Exc A) (k : A -> Exc B) :
  throws m -> throws (x <- m ;; k x).
Proof.
  intros [e He]. rewrite He. exists e. reflexivity.
Qed.

(** ** Hexadecimal rendering *)

Lemma hex_of_byte_spec (b : byte) :
  hex_of_byte b
  = String (spec_hex_digit (Byte.to_N b / 16))
      (String (spec_hex_digit (Byte.to_N b mod 16)) EmptyString).
Proof.
  destruct b; reflexivity.
Qed.

Lemma toString_hex_spec (buf : list byte) : toString_hex buf = spec_lowercase_hex buf.
Proof.
  unfold spec_lowercase_hex.
  induction buf as [| b rest IH]; cbn [toString_hex].
  - reflexivity.
  - rewrite hex_of_byte_spec, IH. reflexivity.
Qed.

Lemma hex_of_byte_lower (b : byte) (rest : string) :
  forallb lower_hex_char (list_ascii_of_string (String.append (hex_of_byte b) rest))
  = forallb lower_hex_char (list_ascii_of_string rest).
Proof.
  destruct b; reflexivity.
Qed.

Lemma toString_hex_lower (buf : list byte) :
  forallb lower_hex_char (list_ascii_of_string (toString_hex buf)) = true.
Proof.
  induction buf as [| b rest IH]; cbn [toString_hex].
  - reflexivity.
  - rewrite hex_of_byte_lower. exact IH.
Qed.

Lemma Buffer_from_hex_of_byte (b : byte) (rest : string) :
  Buffer_from_hex (String.append (hex_of_byte b) rest) = b :: Buffer_from_hex rest.
Proof.
  destruct b; reflexivity.
Qed.

(** Decoding the rendering gives the bytes back. *)
Lemma Buffer_from_hex_toString_hex (buf : list byte) :
  Buffer_from_hex (toString_hex buf) = buf.
Proof.
  induction buf as [| b rest IH]; cbn [toString_hex].
  - reflexivity.
  - rewrite Buffer_from_hex_of_byte, IH. reflexivity.
Qed.

Lemma toString_hex_length (buf : list byte) :
  String.length (toString_hex buf) = 2 * length buf.
Proof.
  induction buf as [| b rest IH]; simpl.
  - reflexivity.
  - rewrite IH. lia.
Qed.

Section KeyDerivation.

Context {sdk : Collaborators}.

Lemma getDictionaryKeyHash_eq (uref id : string) (ref : CLURefValue) :
  CLURef_fromFormattedStr uref = Ret ref ->
  getDictionaryKeyHash uref (DString id)
  = Ret (String.append "dictionary-"
           (toString_hex (blake_blake2b (data ref ++ list_byte_of_string id) None 32))).
Proof.
  intros Href. unfold getDictionaryKeyHash. rewrite Href. simpl.
  rewrite app_nil_r. reflexivity.
Qed.

Lemma getDictionaryKeyHash_prefix (uref : string) (id : Data) (k : string) :
  getDictionaryKeyHash uref id = Ret k -> startsWith k "dictionary" = true.
Proof.
  unfold getDictionaryKeyHash. intros Hk.
  apply bind_Ret_inv in Hk. destruct Hk as [ref [_ Hk]].
  apply bind_Ret_inv in Hk. destruct Hk as [idNum [_ Hk]].
  injection Hk as <-. reflexivity.
Qed.

(** C1. For a seed reference that the SDK decodes, and any event id,
    [getDictionaryKeyHash] returns "dictionary-" followed by the lowercase
    hexadecimal rendering of the 32-byte BLAKE2b digest of the seed
    reference's bytes directly followed by the bytes of the event id:
    it is the derivation of the specification, its digits are lowercase
    hexadecimal ones and decode back to the digest. *)
Theorem getDictionaryKeyHash_correct (seedRef eventId : string) (ref : CLURefValue) :
  CLURef_fromFormattedStr seedRef = Ret ref ->
  getDictionaryKeyHash seedRef (DString eventId)
    = Ret (spec_deriveKey (data ref) eventId)
  /\ (exists digits : string,
        spec_deriveKey (data ref) eventId = String.append "dictionary-" digits
        /\ forallb lower_hex_char (list_ascii_of_string digits) = true
        /\ Buffer_from_hex digits
           = blake_blake2b (data ref ++ list_byte_of_string eventId) None 32).
Proof.
  intros Href. split.
  - rewrite (getDictionaryKeyHash_eq _ _ _ Href).
    unfold spec_deriveKey. rewrite toString_hex_spec. reflexivity.
  - exists (toString_hex (blake_blake2b (data ref ++ list_byte_of_string eventId) None 32)).
    split; [| split].
    + unfold spec_deriveKey. rewrite toString_hex_spec. reflexivity.
    + apply toString_hex_lower.
    + apply Buffer_from_hex_toString_hex.
Qed.

End KeyDerivation.

(** ** The reducer *)

Lemma strict_eq_string_true (d : Data) (s : string) :
  strict_eq_string d s = true <-> d = DString s.
Proof.
  destruct d; simpl; try (split; [discriminate | discriminate]).
  rewrite String.eqb_eq. split; [intros -> | intros [= ->]]; reflexivity.
Qed.

Lemma includes_true (names : list CEP47Events) (d : Data) :
  includes names d = true <-> exists name, In name names /\ d = DString (CEP47Events_value name).
Proof.
  unfold includes. rewrite existsb_exists.
  split; intros [name [Hin Hd]]; exists name; (split; [exact Hin |]);
    apply strict_eq_string_true; exact Hd.
Qed.

Lemma startsWith_false_candidate (val : TransformRecord) :
  startsWith (key val) "dictionary" = false -> candidate val = None.
Proof.
  unfold candidate. intros ->. reflexivity.
Qed.

Lemma candidate_Some (val : TransformRecord) (w : WriteCLValue) :
  candidate val = Some w
  <-> startsWith (key val) "dictionary" = true
      /\ transform val = WriteCLValueTransform w
      /\ parsed w = Some JsonNull.
Proof.
  unfold candidate. split.
  - destruct (startsWith (key val) "dictionary"); [| discriminate].
    destruct (transform val) as [tag | w']; [discriminate |].
    destruct (parsed w') as [[| | | | |] |] eqn:Hp; simpl; try discriminate.
    intros [= <-]. repeat split. exact Hp.
  - intros [-> [-> ->]]. reflexivity.
Qed.

Section Extraction.

Context {sdk : Collaborators}.

Variable sub : Subscription.

Lemma reducer_not_candidate (acc : list JsValue) (val : TransformRecord) :
  candidate val = None -> reducer sub acc val = Ret acc.
Proof.
  unfold reducer. intros ->. reflexivity.
Qed.

(** On a candidate whose bytes decode to an Option holding a map with an
    [event_id], the reducer is the key derivation followed by the three
    comparisons. *)
Lemma reducer_on_map (acc : list JsValue) (val : TransformRecord) (w : WriteCLValue)
    (entries : list (CLValue * CLValue)) (id : CLValue) :
  candidate val = Some w ->
  CLValueParsers_fromBytesWithType (Buffer_from_hex (bytes w))
    = Ok (CLOption (Some (CLMap entries))) ->
  CLMap_get entries "event_id" = Some id ->
  reducer sub acc val
  = (derived <- getDictionaryKeyHash (eventsURef sub) (CLValue_value id) ;;
     match CLMap_get entries "contract_package_hash", CLMap_get entries "event_type" with
     | Some hash, Some event =>
         if String.eqb derived (key val)
            && strict_eq_string (CLValue_value hash) (contractPackageHash sub)
            && includes (eventNames sub) (CLValue_value event)
         then Ret (acc ++ [event_entry (CLValue_value event) (CLMap entries)])
         else Ret acc
     | _, _ => Ret acc
     end).
Proof.
  intros Hc Hd Hid. unfold reducer. rewrite Hc, Hd. simpl. rewrite Hid. reflexivity.
Qed.

Lemma reducer_Survives (acc : list JsValue) (val : TransformRecord) (entry : JsValue) :
  Survives sub val entry -> reducer sub acc val = Ret (acc ++ [entry]).
Proof.
  intros [w entries id hash event name Hk Ht Hp Hd Hid Hhash Hev Hkey Hh He Hin].
  assert (Hc : candidate val = Some w) by (apply candidate_Some; auto).
  rewrite (reducer_on_map acc val w entries id Hc Hd Hid).
  rewrite Hkey, Hhash, Hev. simpl.
  rewrite String.eqb_refl.
  replace (strict_eq_string (CLValue_value hash) (contractPackageHash sub)) with true
    by (symmetry; apply strict_eq_string_true; exact Hh).
  replace (includes (eventNames sub) (CLValue_value event)) with true
    by (symmetry; apply includes_true; exists name; auto).
  simpl. unfold event_entry. rewrite He. reflexivity.
Qed.

(** Whatever the reducer returns is the accumulator, unchanged or with
    the entry of a surviving transform at its end. *)
Lemma reducer_Ret_inv (acc acc' : list JsValue) (val : TransformRecord) :
  reducer sub acc val = Ret acc' ->
  acc' = acc \/ exists entry, Survives sub val entry /\ acc' = acc ++ [entry].
Proof.
  unfold reducer.
  destruct (candidate val) as [w |] eqn:Hc; [| intros [= <-]; left; reflexivity].
  apply candidate_Some in Hc. destruct Hc as [Hk [Ht Hp]].
  destruct (CLValueParsers_fromBytesWithType (Buffer_from_hex (bytes w)))
    as [decoded | err] eqn:Hd; simpl; [| discriminate].
  destruct decoded as [b | n | s | [inner |] | entries]; simpl;
    try (intros [= <-]; left; reflexivity).
  destruct inner as [b | n | s | o | entries]; simpl;
    try (intros [= <-]; left; reflexivity).
  destruct (CLMap_get entries "event_id") as [id |] eqn:Hid;
    [| intros [= <-]; left; reflexivity].
  destruct (getDictionaryKeyHash (eventsURef sub) (CLValue_value id))
    as [derived | e] eqn:Hkey; simpl; [| discriminate].
  destruct (CLMap_get entries "contract_package_hash") as [hash |] eqn:Hhash;
    [| intros [= <-]; left; reflexivity].
  destruct (CLMap_get entries "event_type") as [event |] eqn:Hev;
    [| intros [= <-]; left; reflexivity].
  destruct (String.eqb derived (key val)) eqn:Heq; simpl;
    [| intros [= <-]; left; reflexivity].
  destruct (strict_eq_string (CLValue_value hash) (contractPackageHash sub)) eqn:Hh; simpl;
    [| intros [= <-]; left; reflexivity].
  destruct (includes (eventNames sub) (CLValue_value event)) eqn:Hin;
    [| intros [= <-]; left; reflexivity].
  intros [= <-]. right.
  apply String.eqb_eq in Heq. subst derived.
  apply strict_eq_string_true in Hh.
  apply includes_true in Hin. destruct Hin as [name [Hin He]].
  eexists. split; [| unfold event_entry; rewrite He; reflexivity].
  exact (Survives_intro sub val w entries id hash event name
           Hk Ht Hp Hd Hid Hhash Hev Hkey Hh He Hin).
Qed.

(** The reducer only ever extends the accumulator it is given. *)
Lemma reducer_acc (acc : list JsValue) (val : TransformRecord) :
  reducer sub acc val = (r <- reducer sub [] val ;; Ret (acc ++ r)).
Proof.
  unfold reducer.
  destruct (candidate val) as [w |]; simpl; [| now rewrite app_nil_r].
  destruct (CLValueParsers_fromBytesWithType (Buffer_from_hex (bytes w)))
    as [decoded | err]; simpl; [| reflexivity].
  destruct decoded as [b | n | s | [inner |] | entries]; simpl;
    try reflexivity; try now rewrite app_nil_r.
  destruct inner as [b | n | s | o | entries]; simpl; try now rewrite app_nil_r.
  destruct (CLMap_get entries "event_id") as [id |]; simpl; [| now rewrite app_nil_r].
  destruct (getDictionaryKeyHash (eventsURef sub) (CLValue_value id)) as [derived | e];
    simpl; [| reflexivity].
  destruct (CLMap_get entries "contract_package_hash") as [hash |];
    simpl; [| now rewrite app_nil_r].
  destruct (CLMap_get entries "event_type") as [event |];
    simpl; [| now rewrite app_nil_r].
  destruct (String.eqb derived (key val)
            && strict_eq_string (CLValue_value hash) (contractPackageHash sub)
            && includes (eventNames sub) (CLValue_value event));
    simpl; [reflexivity | now rewrite app_nil_r].
Qed.

Lemma reducer_throws_acc (acc acc' : list JsValue) (val : TransformRecord) :
  throws (reducer sub acc val) -> throws (reducer sub acc' val).
Proof.
  rewrite (reducer_acc acc), (reducer_acc acc').
  destruct (reducer sub [] val) as [r | e]; simpl; intros [e' He'].
  - discriminate He'.
  - exists e. reflexivity.
Qed.

(** ** The scan of the transform list *)

Lemma reduce_app {A B : Type} (f : B -> A -> Exc B) (l1 l2 : list A) (init : B) :
  reduce f (l1 ++ l2) init = (acc <- reduce f l1 init ;; reduce f l2 acc).
Proof.
  revert init. induction l1 as [| x l1 IH]; intros init; simpl.
  - reflexivity.
  - destruct (f init x) as [acc | e]; simpl; [apply IH | reflexivity].
Qed.

Lemma reduce_acc (ts : list TransformRecord) (acc : list JsValue) :
  reduce (reducer sub) ts acc = (r <- reduce (reducer sub) ts [] ;; Ret (acc ++ r)).
Proof.
  revert acc. induction ts as [| val ts IH]; intros acc; simpl.
  - rewrite app_nil_r. reflexivity.
  - rewrite (reducer_acc acc val).
    destruct (reducer sub [] val) as [r | e]; simpl; [| reflexivity].
    rewrite (IH (acc ++ r)), (IH r).
    destruct (reduce (reducer sub) ts []) as [r' | e]; simpl; [| reflexivity].
    rewrite app_assoc. reflexivity.
Qed.

Lemma reduce_not_candidates (ts : list TransformRecord) (acc : list JsValue) :
  Forall (fun val => candidate val = None) ts -> reduce (reducer sub) ts acc = Ret acc.
Proof.
  induction 1 as [| val ts Hval _ IH]; simpl.
  - reflexivity.
  - rewrite (reducer_not_candidate acc val Hval). simpl. exact IH.
Qed.

Lemma reduce_throws (ts : list TransformRecord) (acc : list JsValue) (val : TransformRecord) :
  In val ts -> throws (reducer sub [] val) -> throws (reduce (reducer sub) ts acc).
Proof.
  revert acc. induction ts as [| x ts IH]; intros acc Hin Hval; simpl.
  - destruct Hin.
  - destruct (reducer sub acc x) as [acc' | e] eqn:Hx; simpl.
    + destruct Hin as [-> | Hin].
      * apply (reducer_throws_acc [] acc) in Hval. rewrite Hx in Hval.
        destruct Hval as [e He]. discriminate He.
      * apply IH; assumption.
    + exists e. reflexivity.
Qed.

Lemma reduce_returns (ts : list TransformRecord) (acc : list JsValue) :
  Forall (fun val => returns (reducer sub [] val)) ts ->
  returns (reduce (reducer sub) ts acc).
Proof.
  intros Hts. revert acc. induction Hts as [| val ts Hval _ IH]; intros acc; simpl.
  - exists acc. reflexivity.
  - rewrite (reducer_acc acc val). destruct Hval as [r ->]. simpl. apply IH.
Qed.

Lemma reduce_Scanned (ts : list TransformRecord) (acc : list JsValue) :
  reduce (reducer sub) ts [] = Ret acc -> Scanned sub ts acc.
Proof.
  revert acc. induction ts as [| val ts IH]; intros acc; simpl.
  - intros [= <-]. constructor.
  - intros Hr. apply bind_Ret_inv in Hr. destruct Hr as [r [Hval Hrest]].
    rewrite reduce_acc in Hrest.
    apply bind_Ret_inv in Hrest. destruct Hrest as [rest [Hrest [= <-]]].
    pose proof Hval as Hinv.
    apply reducer_Ret_inv in Hinv. destruct Hinv as [-> | [entry [Hs ->]]]; simpl.
    + apply Scanned_skip; [| apply IH; exact Hrest].
      intros entry Hs. rewrite (reducer_Survives [] val entry Hs) in Hval.
      discriminate Hval.
    + apply Scanned_keep; [exact Hs | apply IH; exact Hrest].
Qed.

Lemma Scanned_In (ts : list TransformRecord) (acc : list JsValue) :
  Scanned sub ts acc ->
  forall entry, In entry acc <-> exists val, In val ts /\ Survives sub val entry.
Proof.
  induction 1 as [| val ts acc Hno _ IH | val ts entry0 acc Hs _ IH]; intros entry.
  - split; [intros [] | intros [val [[] _]]].
  - rewrite IH. split.
    + intros [v [Hin Hv]]. exists v. split; [right; exact Hin | exact Hv].
    + intros [v [[<- | Hin] Hv]]; [destruct (Hno entry Hv) | exists v; auto].
  - simpl. rewrite IH. split.
    + intros [<- | [v [Hin Hv]]]; [exists val; auto | exists v; auto].
    + intros [v [[<- | Hin] Hv]].
      * left. pose proof (reducer_Survives [] val _ Hs) as H1.
        rewrite (reducer_Survives [] val _ Hv) in H1. injection H1 as H1. symmetry. exact H1.
      * right. exists v. auto.
Qed.

Lemma Scanned_entries (ts : list TransformRecord) (acc : list JsValue) :
  Scanned sub ts acc ->
  Forall (fun entry => exists name entries,
            entry = JsObject [("name", JsString (CEP47Events_value name));
                              ("clValue", JsCLValue (CLMap entries))]) acc.
Proof.
  induction 1 as [| val ts acc _ _ IH | val ts entry acc Hs _ IH].
  - constructor.
  - exact IH.
  - constructor; [| exact IH].
    destruct Hs as [w entries id hash event name]. exists name, entries. reflexivity.
Qed.

(** Dropping a transform that the reducer passes over changes nothing. *)
Lemma reduce_passed_over (pre post : list TransformRecord) (val : TransformRecord)
    (init : list JsValue) :
  (forall acc, reducer sub acc val = Ret acc) ->
  reduce (reducer sub) (pre ++ val :: post) init = reduce (reducer sub) (pre ++ post) init.
Proof.
  intros Hval. rewrite !reduce_app.
  destruct (reduce (reducer sub) pre init) as [acc | e]; simpl; [| reflexivity].
  rewrite Hval. reflexivity.
Qed.

(** ** parseEvent *)

Lemma parseEvent_Failure (value : Payload) (failure : FailureResult) :
  Failure (outcome value) = Some failure ->
  parseEvent sub value = Ret (failure_result (error_message failure)).
Proof.
  unfold parseEvent, outcome. intros ->. reflexivity.
Qed.

Lemma parseEvent_Success (value : Payload) (success : SuccessResult) :
  Failure (outcome value) = None ->
  Success (outcome value) = Some success ->
  parseEvent sub value
  = (cep47Events <- reduce (reducer sub) (transforms (effect success)) [] ;;
     Ret (success_result cep47Events)).
Proof.
  unfold parseEvent, outcome. intros -> ->. reflexivity.
Qed.

(** C2 (amended). A candidate whose bytes decode to an empty Option, to
    an Option holding something else than a map, or to a map without an
    [event_id] is passed over: the accumulator is returned unchanged and
    the extraction gives what it gives without that transform. A candidate
    whose bytes the decoder rejects makes the reducer throw, and with it
    the extraction of every successful payload that contains it. *)
Theorem parseEvent_candidate_decoding (val : TransformRecord) (w : WriteCLValue) :
  candidate val = Some w ->
  (CLValueParsers_fromBytesWithType (Buffer_from_hex (bytes w)) = Ok (CLOption None)
   \/ (exists inner,
         CLValueParsers_fromBytesWithType (Buffer_from_hex (bytes w))
           = Ok (CLOption (Some inner))
         /\ forall entries, inner <> CLMap entries)
   \/ (exists entries,
         CLValueParsers_fromBytesWithType (Buffer_from_hex (bytes w))
           = Ok (CLOption (Some (CLMap entries)))
         /\ CLMap_get entries "event_id" = None) ->
   (forall acc, reducer sub acc val = Ret acc)
   /\ forall value success pre post,
        Failure (outcome value) = None ->
        Success (outcome value) = Some success ->
        transforms (effect success) = pre ++ val :: post ->
        parseEvent sub value = parseEvent sub (successful (pre ++ post)))
  /\ (forall err,
        CLValueParsers_fromBytesWithType (Buffer_from_hex (bytes w)) = Err err ->
        (forall acc, throws (reducer sub acc val))
        /\ forall value success,
             Failure (outcome value) = None ->
             Success (outcome value) = Some success ->
             In val (transforms (effect success)) ->
             throws (parseEvent sub value)).
Proof.
  intros Hc. split.
  - intros Hshape.
    assert (Hskip : forall acc, reducer sub acc val = Ret acc).
    { intros acc. unfold reducer. rewrite Hc.
      destruct Hshape as [Hd | [[inner [Hd Hinner]] | [entries [Hd Hid]]]];
        rewrite Hd; simpl.
      - reflexivity.
      - destruct inner as [b | n | s | o | entries]; try reflexivity.
        destruct (Hinner entries eq_refl).
      - rewrite Hid. reflexivity. }
    split; [exact Hskip |].
    intros value success pre post HF HS Hts.
    rewrite (parseEvent_Success value success HF HS), Hts.
    rewrite (parseEvent_Success (successful (pre ++ post))
               {| effect := {| transforms := pre ++ post |} |} eq_refl eq_refl).
    simpl. rewrite (reduce_passed_over pre post val [] Hskip). reflexivity.
  - intros err Hd.
    assert (Hthrow : forall acc, throws (reducer sub acc val)).
    { intros acc. unfold reducer. rewrite Hc, Hd. simpl. eexists. reflexivity. }
    split; [exact Hthrow |].
    intros value success HF HS Hin.
    rewrite (parseEvent_Success value success HF HS).
    apply bind_Throw_l. apply (reduce_throws _ _ val Hin). apply Hthrow.
Qed.

(** C3. A transform written under [deriveKey(R, "42")], unparsed, whose
    bytes decode to an Option holding a map with [event_id] "42", the
    subscription's package hash and [event_type] "cep47_mint_one", alone in
    a successful payload, gives [success: true] and the one entry
    [{name: "cep47_mint_one", clValue: map}]. More generally the entry of a
    surviving transform is appended to the accumulator, and it stands in
    the result between the entries of the transforms before it and those
    of the transforms after it. *)
Theorem parseEvent_exact_match :
  (forall (R H K : string) (val : TransformRecord) (w : WriteCLValue)
          (entries : list (CLValue * CLValue)) (value : Payload) (success : SuccessResult),
     eventsURef sub = R ->
     contractPackageHash sub = H ->
     In MintOne (eventNames sub) ->
     getDictionaryKeyHash R (DString "42") = Ret K ->
     key val = K ->
     transform val = WriteCLValueTransform w ->
     parsed w = Some JsonNull ->
     CLValueParsers_fromBytesWithType (Buffer_from_hex (bytes w))
       = Ok (CLOption (Some (CLMap entries))) ->
     CLMap_get entries "event_id" = Some (CLString "42") ->
     CLMap_get entries "contract_package_hash" = Some (CLString H) ->
     CLMap_get entries "event_type" = Some (CLString "cep47_mint_one") ->
     Failure (outcome value) = None ->
     Success (outcome value) = Some success ->
     transforms (effect success) = [val] ->
     parseEvent sub value
     = Ret (JsObject
              [("error", JsNull);
               ("success", JsBoolean true);
               ("data", JsArray
                  [JsObject [("name", JsString "cep47_mint_one");
                             ("clValue", JsCLValue (CLMap entries))]])]))
  /\ (forall (val : TransformRecord) (entry : JsValue),
        Survives sub val entry ->
        (forall acc, reducer sub acc val = Ret (acc ++ [entry]))
        /\ forall (value : Payload) (success : SuccessResult)
                  (pre post : list TransformRecord) (before after : list JsValue),
             Failure (outcome value) = None ->
             Success (outcome value) = Some success ->
             transforms (effect success) = pre ++ val :: post ->
             reduce (reducer sub) pre [] = Ret before ->
             reduce (reducer sub) post [] = Ret after ->
             parseEvent sub value
             = Ret (JsObject
                      [("error", JsNull);
                       ("success", JsBoolean true);
                       ("data", JsArray (before ++ entry :: after))])).
Proof.
  assert (General : forall (val : TransformRecord) (entry : JsValue),
        Survives sub val entry ->
        (forall acc, reducer sub acc val = Ret (acc ++ [entry]))
        /\ forall (value : Payload) (success : SuccessResult)
                  (pre post : list TransformRecord) (before after : list JsValue),
             Failure (outcome value) = None ->
             Success (outcome value) = Some success ->
             transforms (effect success) = pre ++ val :: post ->
             reduce (reducer sub) pre [] = Ret before ->
             reduce (reducer sub) post [] = Ret after ->
             parseEvent sub value
             = Ret (JsObject
                      [("error", JsNull);
                       ("success", JsBoolean true);
                       ("data", JsArray (before ++ entry :: after))])).
  { intros val entry Hs. split.
    - intros acc. apply reducer_Survives. exact Hs.
    - intros value success pre post before after HF HS Hts Hpre Hpost.
      rewrite (parseEvent_Success value success HF HS), Hts.
      rewrite reduce_app, Hpre. simpl.
      rewrite (reducer_Survives before val entry Hs). simpl.
      rewrite reduce_acc, Hpost. simpl.
      rewrite <- app_assoc. simpl. unfold success_result.
      replace (Nat.eqb (length (before ++ entry :: after)) 0) with false; [reflexivity |].
      symmetry. apply Nat.eqb_neq. rewrite length_app. simpl. lia. }
  split; [| exact General].
  intros R H K val w entries value success HR HH Hin HK Hkey Ht Hp Hd Hid Hhash Hev HF HS Hts.
  assert (Hs : Survives sub val
                 (JsObject [("name", JsString (CEP47Events_value MintOne));
                            ("clValue", JsCLValue (CLMap entries))])).
  { apply (Survives_intro sub val w entries (CLString "42") (CLString H)
             (CLString "cep47_mint_one") MintOne); auto.
    - rewrite Hkey. apply (getDictionaryKeyHash_prefix R (DString "42")). exact HK.
    - rewrite HR, Hkey. exact HK.
    - simpl. rewrite HH. reflexivity. }
  destruct (General val _ Hs) as [_ Hpayload].
  apply (Hpayload value success [] [] [] []); auto.
Qed.

(** C4. For a candidate whose map holds the three fields, the reducer
    adds an entry only if the key re-derived from the subscription's seed
    reference and the [event_id] is the transform's key; when the
    re-derived key differs the accumulator is returned unchanged, and a
    payload with only that transform gives the clean miss. *)
Theorem parseEvent_provenance (val : TransformRecord) (w : WriteCLValue)
    (entries : list (CLValue * CLValue)) (id hash event : CLValue) :
  candidate val = Some w ->
  CLValueParsers_fromBytesWithType (Buffer_from_hex (bytes w))
    = Ok (CLOption (Some (CLMap entries))) ->
  CLMap_get entries "event_id" = Some id ->
  CLMap_get entries "contract_package_hash" = Some hash ->
  CLMap_get entries "event_type" = Some event ->
  (forall acc acc',
     reducer sub acc val = Ret acc' ->
     acc' <> acc ->
     getDictionaryKeyHash (eventsURef sub) (CLValue_value id) = Ret (key val))
  /\ (forall derived,
        getDictionaryKeyHash (eventsURef sub) (CLValue_value id) = Ret derived ->
        derived <> key val ->
        (forall acc, reducer sub acc val = Ret acc)
        /\ forall value success,
             Failure (outcome value) = None ->
             Success (outcome value) = Some success ->
             transforms (effect success) = [val] ->
             parseEvent sub value
             = Ret (JsObject [("error", JsNull);
                              ("success", JsBoolean false);
                              ("data", JsArray [])])).
Proof.
  intros Hc Hd Hid Hhash Hev. split.
  - intros acc acc' Hr Hne.
    rewrite (reducer_on_map acc val w entries id Hc Hd Hid) in Hr.
    apply bind_Ret_inv in Hr. destruct Hr as [derived [Hkey Hr]].
    rewrite Hhash, Hev in Hr.
    destruct (String.eqb derived (key val)) eqn:Heq.
    + apply String.eqb_eq in Heq. rewrite <- Heq. exact Hkey.
    + simpl in Hr. injection Hr as <-. destruct (Hne eq_refl).
  - intros derived Hkey Hne.
    assert (Hskip : forall acc, reducer sub acc val = Ret acc).
    { intros acc. rewrite (reducer_on_map acc val w entries id Hc Hd Hid).
      rewrite Hkey, Hhash, Hev. simpl.
      apply String.eqb_neq in Hne. rewrite Hne. reflexivity. }
    split; [exact Hskip |].
    intros value success HF HS Hts.
    rewrite (parseEvent_Success value success HF HS), Hts. simpl.
    rewrite Hskip. reflexivity.
Qed.

(** C5. On a payload whose execution result has a [Failure] with message
    [m], [parseEvent] returns exactly [{error: m, success: false}]; the
    result is the same whatever stands under [Success], so no transform is
    looked at. With the message "Out of gas" the result is
    [{error: "Out of gas", success: false}]. *)
Theorem parseEvent_failure_short_circuit (value : Payload) (failure : FailureResult)
    (m : string) :
  Failure (outcome value) = Some failure ->
  error_message failure = m ->
  parseEvent sub value = Ret (JsObject [("error", JsString m); ("success", JsBoolean false)])
  /\ (forall anything : option SuccessResult,
        parseEvent sub (payload_of {| Failure := Some failure; Success := anything |})
        = parseEvent sub value)
  /\ (m = "Out of gas" ->
      parseEvent sub value
      = Ret (JsObject [("error", JsString "Out of gas"); ("success", JsBoolean false)])).
Proof.
  intros HF Hm.
  assert (Hr : parseEvent sub value
               = Ret (JsObject [("error", JsString m); ("success", JsBoolean false)])).
  { rewrite (parseEvent_Failure value failure HF), Hm. reflexivity. }
  split; [exact Hr |]. split.
  - intros anything. rewrite Hr, <- Hm. reflexivity.
  - intros Hgas. rewrite Hr, Hgas. reflexivity.
Qed.

(** C6 (amended). On a successful payload in which the reducer throws on
    no transform, [parseEvent] returns [error: null], [data] the entries of
    the surviving transforms in order, and [success] true exactly when
    there is one; when the reducer throws on some transform, [parseEvent]
    throws. When no key starts with "dictionary" the result is exactly
    [{error: null, success: false, data: []}]. *)
Theorem parseEvent_result_assembly (value : Payload) (success : SuccessResult) :
  Failure (outcome value) = None ->
  Success (outcome value) = Some success ->
  (Forall (fun val => returns (reducer sub [] val)) (transforms (effect success)) ->
   exists acc,
     Scanned sub (transforms (effect success)) acc
     /\ parseEvent sub value
        = Ret (JsObject
                 [("error", JsNull);
                  ("success", JsBoolean match acc with [] => false | _ :: _ => true end);
                  ("data", JsArray acc)]))
  /\ (Exists (fun val => throws (reducer sub [] val)) (transforms (effect success)) ->
      throws (parseEvent sub value))
  /\ (Forall (fun val => startsWith (key val) "dictionary" = false)
        (transforms (effect success)) ->
      parseEvent sub value
      = Ret (JsObject [("error", JsNull); ("success", JsBoolean false); ("data", JsArray [])])).
Proof.
  intros HF HS. rewrite (parseEvent_Success value success HF HS).
  split; [| split].
  - intros Hall.
    destruct (reduce_returns (transforms (effect success)) [] Hall) as [acc Hacc].
    exists acc. split; [apply reduce_Scanned; exact Hacc |].
    rewrite Hacc. simpl. unfold success_result. destruct acc; reflexivity.
  - intros Hex. apply Exists_exists in Hex. destruct Hex as [val [Hin Hval]].
    apply bind_Throw_l. apply (reduce_throws _ _ val Hin Hval).
  - intros Hkeys.
    rewrite reduce_not_candidates; [reflexivity |].
    apply Forall_impl with (2 := Hkeys).
    intros val. apply startsWith_false_candidate.
Qed.

(** C7 (amended). Each element of [data] in the result of a successful
    payload is an object with the two properties [name] and [clValue], in
    that order: the name of a subscribed event and the decoded map. *)
Theorem parseEvent_data_elements (value : Payload) (success : SuccessResult) (r : JsValue) :
  Failure (outcome value) = None ->
  Success (outcome value) = Some success ->
  parseEvent sub value = Ret r ->
  exists found elements,
    r = JsObject [("error", JsNull); ("success", JsBoolean found); ("data", JsArray elements)]
    /\ Forall (fun element =>
                 property_names element = ["name"; "clValue"]
                 /\ exists name entries,
                      In name (eventNames sub)
                      /\ element
                         = JsObject [("name", JsString (CEP47Events_value name));
                                     ("clValue", JsCLValue (CLMap entries))]) elements.
Proof.
  intros HF HS Hr. rewrite (parseEvent_Success value success HF HS) in Hr.
  apply bind_Ret_inv in Hr. destruct Hr as [acc [Hacc [= <-]]].
  exists (negb (Nat.eqb (length acc) 0)), acc. split; [reflexivity |].
  apply Forall_forall. intros element Hin.
  apply (Scanned_In _ _ (reduce_Scanned _ _ Hacc)) in Hin.
  destruct Hin as [val [_ Hs]].
  destruct Hs as [w entries id hash event name].
  split; [reflexivity |]. exists name, entries. split; [assumption | reflexivity].
Qed.

(** C9. A transform with a "dictionary" key and the [WriteCLValue] tag is
    a candidate exactly when [parsed] is null. When the property is
    missing, as when it holds another value, the transform is no
    candidate and the reducer returns the accumulator without decoding
    anything. *)
Theorem candidate_parsed_null (acc : list JsValue) (val : TransformRecord)
    (w : WriteCLValue) :
  startsWith (key val) "dictionary" = true ->
  transform val = WriteCLValueTransform w ->
  (candidate val = Some w <-> parsed w = Some JsonNull)
  /\ (parsed w = None -> candidate val = None /\ reducer sub acc val = Ret acc)
  /\ (forall j, parsed w = Some j -> j <> JsonNull ->
        candidate val = None /\ reducer sub acc val = Ret acc).
Proof.
  intros Hk Ht.
  assert (Hnot : parsed w <> Some JsonNull ->
                 candidate val = None /\ reducer sub acc val = Ret acc).
  { intros Hp.
    assert (Hc : candidate val = None).
    { destruct (candidate val) as [w' |] eqn:Hc; [| reflexivity].
      apply candidate_Some in Hc. destruct Hc as [_ [Ht' Hp']].
      rewrite Ht in Ht'. injection Ht' as <-. destruct (Hp Hp'). }
    split; [exact Hc | apply reducer_not_candidate; exact Hc]. }
  split; [| split].
  - rewrite candidate_Some. split; [intros [_ [_ Hp]]; exact Hp | auto].
  - intros Hp. apply Hnot. rewrite Hp. discriminate.
  - intros j Hp Hj. apply Hnot. rewrite Hp. intros [= Hj']. exact (Hj Hj').
Qed.

(** C10. When the execution result carries both a [Failure] and a
    [Success], [parseEvent] returns [{error: message, success: false}] of
    the failure, as on the payload without the [Success]: its transforms
    are not scanned. *)
Theorem parseEvent_failure_precedence (value : Payload) (failure : FailureResult)
    (success : SuccessResult) :
  Failure (outcome value) = Some failure ->
  Success (outcome value) = Some success ->
  parseEvent sub value
  = Ret (JsObject [("error", JsString (error_message failure)); ("success", JsBoolean false)])
  /\ parseEvent sub value
     = parseEvent sub (payload_of {| Failure := Some failure; Success := None |}).
Proof.
  intros HF _. rewrite (parseEvent_Failure value failure HF). split; reflexivity.
Qed.

End Extraction.

(** * The statements on the sample inputs *)

Lemma getDictionaryKeyHash_correct_witness :
  CLURef_fromFormattedStr (Collaborators := Sample.sdk) Sample.R = Ret Sample.ref
  /\ getDictionaryKeyHash (sdk := Sample.sdk) Sample.R (DString "42") = Ret Sample.K.
Proof.
  split; [reflexivity |].
  destruct (@getDictionaryKeyHash_correct Sample.sdk Sample.R "42" Sample.ref eq_refl)
    as [Hkey _].
  rewrite Hkey. reflexivity.
Defined.

(** C2, as stated, fails: the second transform is a candidate whose bytes
    the decoder rejects, and the extraction throws although the first
    transform is a matching event. *)
Lemma parseEvent_malformed_candidate_is_fatal :
  candidate Sample.malformed = Some {| bytes := "zz"; parsed := Some JsonNull |}
  /\ CLValueParsers_fromBytesWithType (Collaborators := Sample.sdk) (Buffer_from_hex "zz")
     = Err "EarlyEndOfStream"
  /\ parseEvent (sdk := Sample.sdk) Sample.sub (successful [Sample.mint; Sample.malformed])
     = Throw (Error "Tried to unwrap Error: EarlyEndOfStream").
Proof.
  repeat split.
Qed.

Lemma parseEvent_candidate_decoding_witness :
  parseEvent (sdk := Sample.sdk) Sample.sub
    (successful [Sample.balance; Sample.empty_option; Sample.mint])
  = parseEvent (sdk := Sample.sdk) Sample.sub (successful [Sample.balance; Sample.mint])
  /\ throws (parseEvent (sdk := Sample.sdk) Sample.sub
               (successful [Sample.mint; Sample.malformed])).
Proof.
  split.
  - destruct (@parseEvent_candidate_decoding Sample.sdk Sample.sub Sample.empty_option
                {| bytes := "00"; parsed := Some JsonNull |} eq_refl) as [Hskip _].
    destruct (Hskip (or_introl eq_refl)) as [_ Hpayload].
    exact (Hpayload (successful [Sample.balance; Sample.empty_option; Sample.mint])
             {| effect := {| transforms :=
                  [Sample.balance; Sample.empty_option; Sample.mint] |} |}
             [Sample.balance] [Sample.mint] eq_refl eq_refl eq_refl).
  - destruct (@parseEvent_candidate_decoding Sample.sdk Sample.sub Sample.malformed
                {| bytes := "zz"; parsed := Some JsonNull |} eq_refl) as [_ Hfatal].
    destruct (Hfatal "EarlyEndOfStream" eq_refl) as [_ Hpayload].
    apply (Hpayload (successful [Sample.mint; Sample.malformed])
             {| effect := {| transforms := [Sample.mint; Sample.malformed] |} |}
             eq_refl eq_refl).
    simpl. right. left. reflexivity.
Defined.

Lemma Sample_mint_Survives :
  Survives (sdk := Sample.sdk) Sample.sub Sample.mint Sample.mint_entry.
Proof.
  apply (@Survives_intro Sample.sdk Sample.sub Sample.mint
           {| bytes := "01"; parsed := Some JsonNull |} Sample.mint_entries
           (CLString "42") (CLString Sample.H) (CLString "cep47_mint_one") MintOne);
    try reflexivity.
  simpl. left. reflexivity.
Qed.

Lemma parseEvent_exact_match_witness :
  parseEvent (sdk := Sample.sdk) Sample.sub (successful [Sample.mint])
  = Ret (JsObject [("error", JsNull);
                   ("success", JsBoolean true);
                   ("data", JsArray [Sample.mint_entry])])
  /\ parseEvent (sdk := Sample.sdk) Sample.sub
       (successful [Sample.map_id; Sample.mint; Sample.identity])
     = Ret (JsObject [("error", JsNull);
                      ("success", JsBoolean true);
                      ("data", JsArray [Sample.mint_entry])]).
Proof.
  destruct (@parseEvent_exact_match Sample.sdk Sample.sub) as [Hexact Hgeneral].
  split.
  - apply (Hexact Sample.R Sample.H Sample.K Sample.mint
             {| bytes := "01"; parsed := Some JsonNull |} Sample.mint_entries
             (successful [Sample.mint])
             {| effect := {| transforms := [Sample.mint] |} |});
      try reflexivity.
    simpl. left. reflexivity.
  - destruct (Hgeneral Sample.mint Sample.mint_entry Sample_mint_Survives) as [_ Hpayload].
    apply (Hpayload (successful [Sample.map_id; Sample.mint; Sample.identity])
             {| effect := {| transforms :=
                  [Sample.map_id; Sample.mint; Sample.identity] |} |}
             [Sample.map_id] [Sample.identity] [] []);
      reflexivity.
Defined.

Lemma parseEvent_provenance_witness :
  getDictionaryKeyHash (sdk := Sample.sdk) Sample.R (DString "42") = Ret Sample.K
  /\ parseEvent (sdk := Sample.sdk) Sample.sub (successful [Sample.spoofed])
     = Ret (JsObject [("error", JsNull); ("success", JsBoolean false); ("data", JsArray [])]).
Proof.
  split.
  - destruct (@parseEvent_provenance Sample.sdk Sample.sub Sample.mint
                {| bytes := "01"; parsed := Some JsonNull |} Sample.mint_entries
                (CLString "42") (CLString Sample.H) (CLString "cep47_mint_one")
                eq_refl eq_refl eq_refl eq_refl eq_refl) as [Honly _].
    apply (Honly [] [Sample.mint_entry]); [reflexivity | discriminate].
  - destruct (@parseEvent_provenance Sample.sdk Sample.sub Sample.spoofed
                {| bytes := "01"; parsed := Some JsonNull |} Sample.mint_entries
                (CLString "42") (CLString Sample.H) (CLString "cep47_mint_one")
                eq_refl eq_refl eq_refl eq_refl eq_refl) as [_ Hmiss].
    destruct (Hmiss Sample.K eq_refl) as [_ Hpayload].
    + apply String.eqb_neq. reflexivity.
    + apply (Hpayload (successful [Sample.spoofed])
               {| effect := {| transforms := [Sample.spoofed] |} |});
        reflexivity.
Defined.

Lemma parseEvent_failure_short_circuit_witness :
  parseEvent (sdk := Sample.sdk) Sample.sub Sample.out_of_gas
  = Ret (JsObject [("error", JsString "Out of gas"); ("success", JsBoolean false)]).
Proof.
  destruct (@parseEvent_failure_short_circuit Sample.sdk Sample.sub Sample.out_of_gas
              {| error_message := "Out of gas" |} "Out of gas" eq_refl eq_refl)
    as [_ [_ Hgas]].
  exact (Hgas eq_refl).
Defined.

(** C6, as stated, fails: this payload is successful, and [parseEvent]
    returns no result for it, with [error: null] or otherwise. *)
Lemma parseEvent_successful_payload_throws :
  Failure (outcome (successful [Sample.malformed])) = None
  /\ Success (outcome (successful [Sample.malformed]))
     = Some {| effect := {| transforms := [Sample.malformed] |} |}
  /\ parseEvent (sdk := Sample.sdk) Sample.sub (successful [Sample.malformed])
     = Throw (Error "Tried to unwrap Error: EarlyEndOfStream")
  /\ ~ (exists r, parseEvent (sdk := Sample.sdk) Sample.sub (successful [Sample.malformed])
                  = Ret r).
Proof.
  repeat split. intros [r Hr]. discriminate Hr.
Qed.

Lemma parseEvent_result_assembly_witness :
  (exists acc,
     Scanned (sdk := Sample.sdk) Sample.sub
       [Sample.map_id; Sample.mint; Sample.pre_parsed] acc
     /\ parseEvent (sdk := Sample.sdk) Sample.sub
          (successful [Sample.map_id; Sample.mint; Sample.pre_parsed])
        = Ret (JsObject
                 [("error", JsNull);
                  ("success", JsBoolean match acc with [] => false | _ :: _ => true end);
                  ("data", JsArray acc)]))
  /\ throws (parseEvent (sdk := Sample.sdk) Sample.sub
               (successful [Sample.bare_map; Sample.mint]))
  /\ parseEvent (sdk := Sample.sdk) Sample.sub (successful [Sample.balance; Sample.identity])
     = Ret (JsObject [("error", JsNull); ("success", JsBoolean false); ("data", JsArray [])]).
Proof.
  split; [| split].
  - destruct (@parseEvent_result_assembly Sample.sdk Sample.sub
                (successful [Sample.map_id; Sample.mint; Sample.pre_parsed])
                {| effect := {| transforms :=
                     [Sample.map_id; Sample.mint; Sample.pre_parsed] |} |}
                eq_refl eq_refl) as [Hreturns _].
    apply Hreturns. simpl.
    repeat constructor.
    + exists []. reflexivity.
    + exists [Sample.mint_entry]. reflexivity.
    + exists []. reflexivity.
  - destruct (@parseEvent_result_assembly Sample.sdk Sample.sub
                (successful [Sample.bare_map; Sample.mint])
                {| effect := {| transforms := [Sample.bare_map; Sample.mint] |} |}
                eq_refl eq_refl) as [_ [Hthrows _]].
    apply Hthrows. simpl. left.
    exists (TypeError "clOption.unwrap is not a function"). reflexivity.
  - destruct (@parseEvent_result_assembly Sample.sdk Sample.sub
                (successful [Sample.balance; Sample.identity])
                {| effect := {| transforms := [Sample.balance; Sample.identity] |} |}
                eq_refl eq_refl) as [_ [_ Hmiss]].
    apply Hmiss. simpl. repeat constructor.
Defined.

(** On the sample inputs: a bare map makes the extraction throw, a map
    under [event_id] does not. *)
Lemma Sample_bare_map_and_map_id :
  parseEvent (sdk := Sample.sdk) Sample.sub (successful [Sample.bare_map; Sample.mint])
  = Throw (TypeError "clOption.unwrap is not a function")
  /\ parseEvent (sdk := Sample.sdk) Sample.sub (successful [Sample.map_id; Sample.mint])
     = Ret (JsObject [("error", JsNull); ("success", JsBoolean true);
                      ("data", JsArray [Sample.mint_entry])]).
Proof.
  split; reflexivity.
Qed.

(** C7, as stated, fails: the element of [data] has the properties [name]
    and [clValue], and none called [value]. *)
Lemma parseEvent_entry_has_no_value_property :
  parseEvent (sdk := Sample.sdk) Sample.sub (successful [Sample.mint])
  = Ret (JsObject
           [("error", JsNull);
            ("success", JsBoolean true);
            ("data", JsArray
               [JsObject [("name", JsString "cep47_mint_one");
                          ("clValue", JsCLValue (CLMap Sample.mint_entries))]])])
  /\ property_names
       (JsObject [("name", JsString "cep47_mint_one");
                  ("clValue", JsCLValue (CLMap Sample.mint_entries))])
     = ["name"; "clValue"]
  /\ get_property
       [("name", JsString "cep47_mint_one");
        ("clValue", JsCLValue (CLMap Sample.mint_entries))] "value"
     = None.
Proof.
  repeat split.
Qed.

Lemma parseEvent_data_elements_witness :
  exists found elements,
    JsObject [("error", JsNull); ("success", JsBoolean true);
              ("data", JsArray [Sample.mint_entry])]
    = JsObject [("error", JsNull); ("success", JsBoolean found); ("data", JsArray elements)]
    /\ Forall (fun element =>
                 property_names element = ["name"; "clValue"]
                 /\ exists name entries,
                      In name (eventNames Sample.sub)
                      /\ element
                         = JsObject [("name", JsString (CEP47Events_value name));
                                     ("clValue", JsCLValue (CLMap entries))]) elements.
Proof.
  exact (@parseEvent_data_elements Sample.sdk Sample.sub (successful [Sample.mint])
           {| effect := {| transforms := [Sample.mint] |} |}
           (JsObject [("error", JsNull); ("success", JsBoolean true);
                      ("data", JsArray [Sample.mint_entry])])
           eq_refl eq_refl eq_refl).
Defined.

Lemma candidate_parsed_null_witness :
  (candidate Sample.parsed_missing = None
   /\ reducer (sdk := Sample.sdk) Sample.sub [] Sample.parsed_missing = Ret [])
  /\ (candidate Sample.pre_parsed = None
      /\ reducer (sdk := Sample.sdk) Sample.sub [] Sample.pre_parsed = Ret [])
  /\ (candidate Sample.mint = Some {| bytes := "01"; parsed := Some JsonNull |}
      <-> Some JsonNull = Some JsonNull).
Proof.
  split; [| split].
  - destruct (@candidate_parsed_null Sample.sdk Sample.sub [] Sample.parsed_missing
                {| bytes := "01"; parsed := None |} eq_refl eq_refl) as [_ [Hmissing _]].
    exact (Hmissing eq_refl).
  - destruct (@candidate_parsed_null Sample.sdk Sample.sub [] Sample.pre_parsed
                {| bytes := "01"; parsed := Some (JsonString "already parsed") |}
                eq_refl eq_refl) as [_ [_ Hother]].
    apply (Hother (JsonString "already parsed") eq_refl). discriminate.
  - destruct (@candidate_parsed_null Sample.sdk Sample.sub [] Sample.mint
                {| bytes := "01"; parsed := Some JsonNull |} eq_refl eq_refl) as [Hiff _].
    exact Hiff.
Defined.

Lemma parseEvent_failure_precedence_witness :
  reduce (reducer (sdk := Sample.sdk) Sample.sub) [Sample.malformed; Sample.mint] []
  = Throw (Error "Tried to unwrap Error: EarlyEndOfStream")
  /\ parseEvent (sdk := Sample.sdk) Sample.sub Sample.both
     = Ret (JsObject [("error", JsString "Out of gas"); ("success", JsBoolean false)]).
Proof.
  split; [reflexivity |].
  destruct (@parseEvent_failure_precedence Sample.sdk Sample.sub Sample.both
              {| error_message := "Out of gas" |}
              {| effect := {| transforms := [Sample.malformed; Sample.mint] |} |}
              eq_refl eq_refl) as [Hresult _].
  exact Hresult.
Defined.

(** * Further properties of utils.ts *)

(** ** camelCased *)

Lemma toUpperCase_letter_not_lower (c : ascii) :
  is_lower_letter c = true ->
  is_lower_letter (toUpperCase_letter c) = false
  /\ Ascii.eqb (toUpperCase_letter c) "_" = false.
Proof.
  destruct c as [[] [] [] [] [] [] [] []]; intros H; try discriminate H; split; reflexivity.
Qed.

Lemma underscore_not_lower (c : ascii) :
  Ascii.eqb c "_" = true -> is_lower_letter c = false.
Proof.
  intros H. apply Ascii.eqb_eq in H. subst c. reflexivity.
Qed.

(** What [camelCased] gives on a string that does not start with a
    lowercase letter does not start with one either. *)
Lemma camelCased_head (d : ascii) (rest : string) :
  is_lower_letter d = false ->
  exists d' rest', camelCased (String d rest) = String d' rest' /\ is_lower_letter d' = false.
Proof.
  intros Hd. cbn [camelCased].
  destruct (Ascii.eqb d "_") eqn:Hu.
  - destruct rest as [| e rest].
    + exists d, EmptyString. auto.
    + destruct (is_lower_letter e) eqn:He.
      * eexists _, _. split; [reflexivity |].
        apply toUpperCase_letter_not_lower. exact He.
      * eexists _, _. split; [reflexivity | exact Hd].
  - eexists _, _. split; [reflexivity | exact Hd].
Qed.

Lemma has_underscore_letter_cons (c : ascii) (s : string) :
  has_underscore_letter (String c s)
  = match s with
    | String d _ => (Ascii.eqb c "_" && is_lower_letter d) || has_underscore_letter s
    | EmptyString => false
    end.
Proof.
  reflexivity.
Qed.

Lemma has_underscore_letter_cons_false (c : ascii) (s : string) :
  (forall d rest, s = String d rest -> Ascii.eqb c "_" && is_lower_letter d = false) ->
  has_underscore_letter s = false ->
  has_underscore_letter (String c s) = false.
Proof.
  intros Hhead Hs. rewrite has_underscore_letter_cons.
  destruct s as [| d rest]; [reflexivity |].
  rewrite (Hhead d rest eq_refl), Hs. reflexivity.
Qed.

Lemma camelCased_no_match_left (n : nat) :
  forall s, String.length s <= n -> has_underscore_letter (camelCased s) = false.
Proof.
  induction n as [| n IH]; intros s Hlen.
  - destruct s; [reflexivity | simpl in Hlen; lia].
  - destruct s as [| c tail]; [reflexivity |].
    simpl in Hlen. cbn [camelCased].
    destruct (Ascii.eqb c "_") eqn:Hu.
    + destruct tail as [| d rest]; [reflexivity |].
      simpl in Hlen.
      destruct (is_lower_letter d) eqn:Hd.
      * apply has_underscore_letter_cons_false; [| apply IH; lia].
        intros d' rest' _.
        destruct (toUpperCase_letter_not_lower d Hd) as [_ Hup].
        rewrite Hup. reflexivity.
      * apply has_underscore_letter_cons_false; [| apply IH; simpl; lia].
        intros d' rest' Heq.
        destruct (camelCased_head d rest Hd) as [d'' [rest'' [Heq' Hd'']]].
        rewrite Heq' in Heq. injection Heq as -> ->.
        rewrite Hd''. apply andb_false_r.
    + apply has_underscore_letter_cons_false; [| apply IH; lia].
      intros d' rest' _. rewrite Hu. reflexivity.
Qed.

Lemma camelCased_fixed (n : nat) :
  forall s, String.length s <= n -> has_underscore_letter s = false -> camelCased s = s.
Proof.
  induction n as [| n IH]; intros s Hlen Hs.
  - destruct s; [reflexivity | simpl in Hlen; lia].
  - destruct s as [| c tail]; [reflexivity |].
    rewrite has_underscore_letter_cons in Hs. cbn [camelCased].
    assert (Hn : String.length tail <= n) by (simpl in Hlen; lia).
    destruct tail as [| d rest].
    + destruct (Ascii.eqb c "_"); reflexivity.
    + apply orb_false_iff in Hs. destruct Hs as [Hhere Htail].
      destruct (Ascii.eqb c "_") eqn:Hu.
      * simpl in Hhere. rewrite Hhere. f_equal. apply IH; assumption.
      * f_equal. apply IH; assumption.
Qed.

Lemma camelCased_length (n : nat) :
  forall s, String.length s <= n ->
    String.length (camelCased s) <= String.length s
    /\ (has_underscore_letter s = true -> String.length (camelCased s) < String.length s).
Proof.
  induction n as [| n IH]; intros s Hlen.
  - destruct s; [simpl; split; [lia | discriminate] | simpl in Hlen; lia].
  - destruct s as [| c tail]; [simpl; split; [lia | discriminate] |].
    rewrite has_underscore_letter_cons. cbn [camelCased].
    assert (Hn : String.length tail <= n) by (simpl in Hlen; lia).
    destruct (IH tail Hn) as [Hle Hlt].
    destruct tail as [| d rest].
    + destruct (Ascii.eqb c "_"); simpl; split; (lia || discriminate).
    + destruct (Ascii.eqb c "_") eqn:Hu.
      * destruct (is_lower_letter d) eqn:Hd.
        -- assert (Hn' : String.length rest <= n) by (simpl in Hn; lia).
           destruct (IH rest Hn') as [Hle' _].
           cbn [String.length]. split; intros; lia.
        -- simpl andb. simpl orb. cbn [String.length] in *. split.
           ++ lia.
           ++ intros Hm. specialize (Hlt Hm). lia.
      * simpl andb. simpl orb. cbn [String.length] in *. split.
        -- lia.
        -- intros Hm. specialize (Hlt Hm). lia.
Qed.

(** X1. The result of [camelCased] has no underscore followed by a
    lowercase letter left, so that applying [camelCased] again changes
    nothing. *)
Theorem camelCased_idempotent (s : string) :
  has_underscore_letter (camelCased s) = false
  /\ camelCased (camelCased s) = camelCased s.
Proof.
  assert (H : has_underscore_letter (camelCased s) = false)
    by (apply (camelCased_no_match_left (String.length s)); lia).
  split; [exact H |].
  apply (camelCased_fixed (String.length (camelCased s))); [lia | exact H].
Qed.

(** X2. [camelCased] returns its argument unchanged exactly when the
    argument has no underscore followed by a lowercase letter; otherwise
    the result is strictly shorter. *)
Theorem camelCased_unchanged_iff (s : string) :
  (camelCased s = s <-> has_underscore_letter s = false)
  /\ (has_underscore_letter s = true -> String.length (camelCased s) < String.length s).
Proof.
  destruct (camelCased_length (String.length s) s (le_n _)) as [_ Hlt].
  split; [| exact Hlt]. split.
  - intros Heq. destruct (has_underscore_letter s) eqn:Hs; [| reflexivity].
    specialize (Hlt eq_refl). rewrite Heq in Hlt. lia.
  - apply (camelCased_fixed (String.length s)). lia.
Qed.

(** ** getAccountNamedKeyValue *)

(** X3. [getAccountNamedKeyValue] is undefined exactly when no named key
    of the account has the name; otherwise it returns the key of the first
    named key with that name, whatever comes after it. *)
Theorem getAccountNamedKeyValue_first_match (accountInfo : Account.AccountInfo)
    (namedKey : string) :
  (Account.getAccountNamedKeyValue accountInfo namedKey = None
   <-> Forall (fun i => Account.name i <> namedKey) (Account.namedKeys accountInfo))
  /\ (forall k,
        Account.getAccountNamedKeyValue accountInfo namedKey = Some k
        <-> exists pre found post,
              Account.namedKeys accountInfo = pre ++ found :: post
              /\ Forall (fun i => Account.name i <> namedKey) pre
              /\ Account.name found = namedKey
              /\ Account.key found = k).
Proof.
  unfold Account.getAccountNamedKeyValue.
  destruct accountInfo as [keys]. cbn [Account.namedKeys].
  induction keys as [| i keys [IHnone IHsome]]; cbn [find].
  - split.
    + split; [constructor | reflexivity].
    + intros k. split; [discriminate |].
      intros [pre [found [post [Heq _]]]]. destruct pre; discriminate Heq.
  - destruct (String.eqb (Account.name i) namedKey) eqn:Hi.
    + apply String.eqb_eq in Hi. split.
      * split; [discriminate |]. intros Hall. inversion Hall as [| ? ? Hne _].
        destruct (Hne Hi).
      * intros k. split.
        -- intros [= <-]. exists [], i, keys. repeat split; [constructor | exact Hi].
        -- intros [pre [found [post [Heq [Hpre [Hname Hkey]]]]]].
           destruct pre as [| j pre]; cbn [app] in Heq.
           ++ injection Heq as -> _. rewrite Hkey. reflexivity.
           ++ injection Heq as -> _. inversion Hpre as [| ? ? Hne _]. destruct (Hne Hi).
    + apply String.eqb_neq in Hi. split.
      * rewrite IHnone. split.
        -- intros Hall. constructor; assumption.
        -- intros Hall. inversion Hall; assumption.
      * intros k. rewrite IHsome. split.
        -- intros [pre [found [post [Heq [Hpre [Hname Hkey]]]]]].
           exists (i :: pre), found, post. cbn [app]. rewrite Heq.
           repeat split; [constructor | |]; assumption.
        -- intros [pre [found [post [Heq [Hpre [Hname Hkey]]]]]].
           destruct pre as [| j pre]; cbn [app] in Heq.
           ++ injection Heq as -> _. destruct (Hi Hname).
           ++ injection Heq as -> ->. inversion Hpre.
              exists pre, found, post. repeat split; assumption.
Qed.

(** ** contractHashToByteArray and toAccountHashString *)

Lemma hex_value_digit (c : ascii) (n : N) :
  hex_value c = Some n -> (n < 16)%N /\ hex_digit n = lower_ascii c.
Proof.
  destruct c as [[] [] [] [] [] [] [] []]; intros H; vm_compute in H;
    try discriminate H; injection H as <-; split; reflexivity.
Qed.

Lemma hex_of_byte_of_digits (hi lo : ascii) (h l : N) :
  hex_value hi = Some h ->
  hex_value lo = Some l ->
  exists b, Byte.of_N (16 * h + l) = Some b
            /\ hex_of_byte b = String (lower_ascii hi) (String (lower_ascii lo) EmptyString).
Proof.
  intros Hh Hl.
  destruct (hex_value_digit hi h Hh) as [Hh16 Hhd].
  destruct (hex_value_digit lo l Hl) as [Hl16 Hld].
  destruct (Byte.of_N (16 * h + l)) as [b |] eqn:Hb.
  - exists b. split; [reflexivity |].
    apply Byte.to_of_N in Hb. unfold hex_of_byte. rewrite Hb.
    rewrite <- (N.div_unique (16 * h + l) 16 h l Hl16 eq_refl).
    rewrite <- (N.mod_unique (16 * h + l) 16 h l Hl16 eq_refl).
    rewrite Hhd, Hld. reflexivity.
  - apply Byte.of_N_None_iff in Hb. lia.
Qed.

Lemma Buffer_from_hex_append (hash : list byte) (tail : string) :
  Buffer_from_hex (String.append (toString_hex hash) tail) = hash ++ Buffer_from_hex tail.
Proof.
  induction hash as [| b hash IH]; cbn [toString_hex].
  - reflexivity.
  - replace (String.append (String.append (hex_of_byte b) (toString_hex hash)) tail)
      with (String.append (hex_of_byte b) (String.append (toString_hex hash) tail))
      by (destruct b; reflexivity).
    rewrite Buffer_from_hex_of_byte, IH. reflexivity.
Qed.

(** X4. Decoding what [toAccountHashString] rendered gives the bytes
    back, also when more text follows the rendering: the bytes come
    first and the rest is decoded after them. The rendering has two
    characters a byte. *)
Theorem contractHashToByteArray_toAccountHashString (hash : list byte) (tail : string) :
  contractHashToByteArray (toAccountHashString hash) = hash
  /\ contractHashToByteArray (String.append (toAccountHashString hash) tail)
     = hash ++ contractHashToByteArray tail
  /\ String.length (toAccountHashString hash) = 2 * length hash.
Proof.
  unfold contractHashToByteArray, toAccountHashString. split; [| split].
  - apply Buffer_from_hex_toString_hex.
  - apply Buffer_from_hex_append.
  - apply toString_hex_length.
Qed.

Lemma hex_pairs_round_trip (n : nat) :
  forall s, String.length s <= n -> hex_pairs s = true ->
    toString_hex (Buffer_from_hex s) = lower_string s
    /\ 2 * length (Buffer_from_hex s) = String.length s.
Proof.
  induction n as [| n IH]; intros s Hlen Hs.
  - destruct s; [split; reflexivity | simpl in Hlen; lia].
  - destruct s as [| hi [| lo rest]]; [split; reflexivity | discriminate Hs |].
    assert (Hn : String.length rest <= n) by (simpl in Hlen; lia).
    cbn [hex_pairs] in Hs. cbn [Buffer_from_hex].
    destruct (hex_value hi) as [h |] eqn:Hh; [| discriminate Hs].
    destruct (hex_value lo) as [l |] eqn:Hl; [| discriminate Hs].
    destruct (hex_of_byte_of_digits hi lo h l Hh Hl) as [b [Hb Hhex]].
    rewrite Hb. destruct (IH rest Hn Hs) as [IHs IHl].
    cbn [toString_hex length lower_string String.length]. rewrite Hhex, IHs. split.
    + reflexivity.
    + lia.
Qed.

(** X5. On a string made of pairs of hexadecimal digits, in either case,
    [contractHashToByteArray] gives one byte a pair, and rendering the
    bytes with [toAccountHashString] gives the string back in lowercase. *)
Theorem toAccountHashString_contractHashToByteArray (contractHash : string) :
  hex_pairs contractHash = true ->
  toAccountHashString (contractHashToByteArray contractHash) = lower_string contractHash
  /\ 2 * length (contractHashToByteArray contractHash) = String.length contractHash.
Proof.
  apply (hex_pairs_round_trip (String.length contractHash)). lia.
Qed.

Lemma Buffer_from_hex_length (n : nat) :
  forall s, String.length s <= n -> 2 * length (Buffer_from_hex s) <= String.length s.
Proof.
  induction n as [| n IH]; intros s Hlen.
  - destruct s; [simpl; lia | simpl in Hlen; lia].
  - destruct s as [| hi [| lo rest]]; [simpl; lia | simpl; lia |].
    assert (Hn : String.length rest <= n) by (simpl in Hlen; lia).
    cbn [Buffer_from_hex].
    destruct (hex_value hi) as [h |]; [| simpl; lia].
    destruct (hex_value lo) as [l |]; [| simpl; lia].
    destruct (Byte.of_N (16 * h + l)); [| simpl; lia].
    specialize (IH rest Hn). cbn [length String.length]. lia.
Qed.

(** X6. [contractHashToByteArray] never fails: it stops without an error
    at the first pair of characters that is not a pair of hexadecimal
    digits, and drops a last character that has no partner; it never
    gives more than one byte for two characters. *)
Theorem contractHashToByteArray_truncates (hash : list byte) (c1 c2 : ascii)
    (rest contractHash : string) :
  (hex_value c1 = None \/ hex_value c2 = None ->
   contractHashToByteArray
     (String.append (toAccountHashString hash) (String c1 (String c2 rest))) = hash)
  /\ contractHashToByteArray
       (String.append (toAccountHashString hash) (String c1 EmptyString)) = hash
  /\ 2 * length (contractHashToByteArray contractHash) <= String.length contractHash.
Proof.
  unfold contractHashToByteArray, toAccountHashString. split; [| split].
  - intros Hbad. rewrite Buffer_from_hex_append. cbn [Buffer_from_hex].
    destruct Hbad as [H1 | H2].
    + rewrite H1. apply app_nil_r.
    + rewrite H2. destruct (hex_value c1); apply app_nil_r.
  - rewrite Buffer_from_hex_append. apply app_nil_r.
  - apply (Buffer_from_hex_length (String.length contractHash)). lia.
Qed.

(** ** getDictionaryKeyHash *)

Section KeyDerivationFurther.

Context {sdk : Collaborators}.

Lemma getDictionaryKeyHash_Ret_inv (uref : string) (id : Data) (k : string) :
  getDictionaryKeyHash uref id = Ret k ->
  exists ref idNum,
    CLURef_fromFormattedStr uref = Ret ref
    /\ Buffer_from id = Ret idNum
    /\ k = String.append "dictionary-"
             (toString_hex (blake_blake2b (data ref ++ idNum) None 32)).
Proof.
  unfold getDictionaryKeyHash. intros Hk.
  apply bind_Ret_inv in Hk. destruct Hk as [ref [Href Hk]].
  apply bind_Ret_inv in Hk. destruct Hk as [idNum [Hid Hk]].
  injection Hk as <-.
  exists ref, idNum. repeat split; [exact Href | exact Hid |].
  cbn [concat]. rewrite app_nil_r. reflexivity.
Qed.

(** X7. When the digest function gives 32 bytes for the length 32, every
    key that [getDictionaryKeyHash] returns is "dictionary-" followed by
    64 lowercase hexadecimal digits: 75 characters. *)
Theorem getDictionaryKeyHash_format (uref : string) (id : Data) (k : string) :
  (forall input, length (blake_blake2b input None 32) = 32) ->
  getDictionaryKeyHash uref id = Ret k ->
  String.length k = 75
  /\ exists digits,
       k = String.append "dictionary-" digits
       /\ String.length digits = 64
       /\ forallb lower_hex_char (list_ascii_of_string digits) = true.
Proof.
  intros Hlen Hk.
  apply getDictionaryKeyHash_Ret_inv in Hk. destruct Hk as [ref [idNum [_ [_ ->]]]].
  assert (H64 : String.length
                  (toString_hex (blake_blake2b (data ref ++ idNum) None 32))
                = 64) by (rewrite toString_hex_length, Hlen; reflexivity).
  split.
  - cbn [String.append String.length]. rewrite H64. reflexivity.
  - eexists. split; [reflexivity |]. split; [exact H64 | apply toString_hex_lower].
Qed.

(** X8. Two derivations give the same key only if the digests are the
    same: the rendering of the digest loses nothing. *)
Theorem getDictionaryKeyHash_same_key (uref1 uref2 id1 id2 k : string)
    (ref1 ref2 : CLURefValue) :
  CLURef_fromFormattedStr uref1 = Ret ref1 ->
  CLURef_fromFormattedStr uref2 = Ret ref2 ->
  getDictionaryKeyHash uref1 (DString id1) = Ret k ->
  getDictionaryKeyHash uref2 (DString id2) = Ret k ->
  blake_blake2b (data ref1 ++ list_byte_of_string id1) None 32
  = blake_blake2b (data ref2 ++ list_byte_of_string id2) None 32.
Proof.
  intros H1 H2 Hk1 Hk2.
  rewrite (getDictionaryKeyHash_eq _ _ _ H1) in Hk1.
  rewrite (getDictionaryKeyHash_eq _ _ _ H2) in Hk2.
  rewrite <- Hk2 in Hk1. injection Hk1 as Hhex.
  rewrite <- (Buffer_from_hex_toString_hex
                (blake_blake2b (data ref1 ++ list_byte_of_string id1) None 32)).
  rewrite Hhex. apply Buffer_from_hex_toString_hex.
Qed.

(** Two subscriptions that differ in the seed reference only, with the
    same derived keys, are reduced alike. *)
Lemma reducer_same_keys (hash : string) (names : list CEP47Events) (uref1 uref2 : string) :
  (forall id, getDictionaryKeyHash uref1 id = getDictionaryKeyHash uref2 id) ->
  forall acc val,
    reducer {| contractPackageHash := hash; eventNames := names; eventsURef := uref1 |}
      acc val
    = reducer {| contractPackageHash := hash; eventNames := names; eventsURef := uref2 |}
        acc val.
Proof.
  intros Hkeys acc val. unfold reducer. cbn [contractPackageHash eventNames eventsURef].
  destruct (candidate val) as [w |]; [| reflexivity].
  destruct (CLValueParsers_fromBytesWithType (Buffer_from_hex (bytes w)))
    as [decoded | err]; simpl; [| reflexivity].
  destruct (some_or_null (CLValue_value decoded)) as [[clValue |] | e]; simpl;
    try reflexivity.
  destruct clValue as [b | n | s | o | entries]; try reflexivity.
  destruct (CLMap_get entries "event_id") as [id |]; [| reflexivity].
  rewrite Hkeys. reflexivity.
Qed.

(** X9. The access rights of the seed reference play no part: two
    references with the same address bytes give the same key for every
    id, and two subscriptions that differ only in such references give
    the same extraction on every payload. *)
Theorem getDictionaryKeyHash_ignores_access_rights (uref1 uref2 : string)
    (ref1 ref2 : CLURefValue) :
  CLURef_fromFormattedStr uref1 = Ret ref1 ->
  CLURef_fromFormattedStr uref2 = Ret ref2 ->
  data ref1 = data ref2 ->
  (forall id, getDictionaryKeyHash uref1 id = getDictionaryKeyHash uref2 id)
  /\ forall hash names value,
       parseEvent {| contractPackageHash := hash; eventNames := names; eventsURef := uref1 |}
         value
       = parseEvent {| contractPackageHash := hash; eventNames := names; eventsURef := uref2 |}
           value.
Proof.
  intros H1 H2 Hdata.
  assert (Hkeys : forall id, getDictionaryKeyHash uref1 id = getDictionaryKeyHash uref2 id).
  { intros id. unfold getDictionaryKeyHash. rewrite H1, H2. simpl.
    rewrite Hdata. reflexivity. }
  split; [exact Hkeys |].
  intros hash names value. unfold parseEvent.
  destruct (Failure (execution_result (DeployProcessed (body value)))); [reflexivity |].
  destruct (Success (execution_result (DeployProcessed (body value)))) as [success |];
    [| reflexivity].
  f_equal. generalize (@nil JsValue) as acc.
  induction (transforms (effect success)) as [| val ts IH]; intros acc; [reflexivity |].
  cbn [reduce]. rewrite (reducer_same_keys hash names uref1 uref2 Hkeys acc val).
  destruct (reducer {| contractPackageHash := hash; eventNames := names;
                       eventsURef := uref2 |} acc val) as [acc' | e]; simpl;
    [apply IH | reflexivity].
Qed.

End KeyDerivationFurther.

(** ** parseEvent *)

Lemma CLValue_value_DString (v : CLValue) (s : string) :
  CLValue_value v = DString s -> v = CLString s.
Proof.
  destruct v; simpl; intros H; try discriminate H. injection H as ->. reflexivity.
Qed.

Section ExtractionFurther.

Context {sdk : Collaborators}.

Variable sub : Subscription.

Lemma parseEvent_successful (ts : list TransformRecord) :
  parseEvent sub (successful ts)
  = (cep47Events <- reduce (reducer sub) ts [] ;; Ret (success_result cep47Events)).
Proof.
  reflexivity.
Qed.

Lemma parseEvent_successful_Ret_inv (ts : list TransformRecord) (r : JsValue) :
  parseEvent sub (successful ts) = Ret r ->
  exists acc, reduce (reducer sub) ts [] = Ret acc /\ r = success_result acc.
Proof.
  rewrite parseEvent_successful. intros Hr.
  apply bind_Ret_inv in Hr. destruct Hr as [acc [Hacc [= <-]]].
  exists acc. split; [exact Hacc | reflexivity].
Qed.

(** X10. The extraction of two transform lists put one after the other
    is made of the two extractions: the data are concatenated and
    [success] is the disjunction; and it throws as soon as one of the two
    does. *)
Theorem parseEvent_concatenation (ts1 ts2 : list TransformRecord) :
  (forall found1 found2 data1 data2,
     parseEvent sub (successful ts1)
     = Ret (JsObject [("error", JsNull); ("success", JsBoolean found1);
                      ("data", JsArray data1)]) ->
     parseEvent sub (successful ts2)
     = Ret (JsObject [("error", JsNull); ("success", JsBoolean found2);
                      ("data", JsArray data2)]) ->
     parseEvent sub (successful (ts1 ++ ts2))
     = Ret (JsObject [("error", JsNull); ("success", JsBoolean (found1 || found2));
                      ("data", JsArray (data1 ++ data2))]))
  /\ (throws (parseEvent sub (successful ts1)) \/ throws (parseEvent sub (successful ts2)) ->
      throws (parseEvent sub (successful (ts1 ++ ts2)))).
Proof.
  split.
  - intros found1 found2 data1 data2 H1 H2.
    apply parseEvent_successful_Ret_inv in H1. destruct H1 as [acc1 [Hacc1 H1]].
    apply parseEvent_successful_Ret_inv in H2. destruct H2 as [acc2 [Hacc2 H2]].
    unfold success_result in H1, H2.
    injection H1 as -> ->. injection H2 as -> ->.
    rewrite parseEvent_successful, reduce_app, Hacc1. simpl.
    rewrite reduce_acc, Hacc2. simpl. unfold success_result.
    rewrite length_app. destruct acc1, acc2; reflexivity.
  - rewrite !parseEvent_successful, reduce_app.
    intros [[e He] | [e He]].
    + destruct (reduce (reducer sub) ts1 []) as [acc1 | e1]; [discriminate He |].
      exists e1. reflexivity.
    + destruct (reduce (reducer sub) ts1 []) as [acc1 | e1]; simpl;
        [| exists e1; reflexivity].
      rewrite reduce_acc.
      destruct (reduce (reducer sub) ts2 []) as [acc2 | e2]; [discriminate He |].
      exists e2. reflexivity.
Qed.

(** X11. A candidate whose map holds the three fields and whose key
    derivation returns is passed over when the value of
    [contract_package_hash] is not the subscription's package hash, or
    when the value of [event_type] is none of the subscribed names, also
    when the derived key is the transform's key. *)
Theorem reducer_rejects_foreign_events (val : TransformRecord) (w : WriteCLValue)
    (entries : list (CLValue * CLValue)) (id hash event : CLValue) (derived : string) :
  candidate val = Some w ->
  CLValueParsers_fromBytesWithType (Buffer_from_hex (bytes w))
    = Ok (CLOption (Some (CLMap entries))) ->
  CLMap_get entries "event_id" = Some id ->
  CLMap_get entries "contract_package_hash" = Some hash ->
  CLMap_get entries "event_type" = Some event ->
  getDictionaryKeyHash (eventsURef sub) (CLValue_value id) = Ret derived ->
  CLValue_value hash <> DString (contractPackageHash sub)
  \/ (forall name, In name (eventNames sub) ->
        CLValue_value event <> DString (CEP47Events_value name)) ->
  forall acc, reducer sub acc val = Ret acc.
Proof.
  intros Hc Hd Hid Hhash Hev Hkey Hforeign acc.
  rewrite (reducer_on_map sub acc val w entries id Hc Hd Hid).
  rewrite Hkey, Hhash, Hev. simpl.
  destruct Hforeign as [Hh | He].
  - replace (strict_eq_string (CLValue_value hash) (contractPackageHash sub)) with false.
    + rewrite andb_false_r. reflexivity.
    + symmetry. apply not_true_is_false. intros H.
      apply strict_eq_string_true in H. exact (Hh H).
  - replace (includes (eventNames sub) (CLValue_value event)) with false.
    + rewrite andb_false_r. reflexivity.
    + symmetry. apply not_true_is_false. intros H.
      apply includes_true in H. destruct H as [name [Hin Hname]].
      exact (He name Hin Hname).
Qed.

(** X12. Every entry of [data] is backed by a transform of the payload:
    its map holds an [event_id] whose derived key is the key of that
    transform, the subscription's package hash under
    [contract_package_hash], and under [event_type] the entry's name, a
    subscribed one. *)
Theorem parseEvent_entries_backed (ts : list TransformRecord) (found : bool)
    (entries_out : list JsValue) (n : string) (entries : list (CLValue * CLValue)) :
  parseEvent sub (successful ts)
  = Ret (JsObject [("error", JsNull); ("success", JsBoolean found);
                   ("data", JsArray entries_out)]) ->
  In (JsObject [("name", JsString n); ("clValue", JsCLValue (CLMap entries))]) entries_out ->
  exists val id name,
    In val ts
    /\ startsWith (key val) "dictionary" = true
    /\ CLMap_get entries "event_id" = Some id
    /\ getDictionaryKeyHash (eventsURef sub) (CLValue_value id) = Ret (key val)
    /\ CLMap_get entries "contract_package_hash" = Some (CLString (contractPackageHash sub))
    /\ CLMap_get entries "event_type" = Some (CLString n)
    /\ In name (eventNames sub)
    /\ n = CEP47Events_value name.
Proof.
  intros Hr Hin.
  apply parseEvent_successful_Ret_inv in Hr. destruct Hr as [acc [Hacc Hr]].
  unfold success_result in Hr. injection Hr as _ ->.
  apply (Scanned_In sub _ _ (reduce_Scanned sub _ _ Hacc)) in Hin.
  destruct Hin as [val [Hval Hs]].
  inversion Hs as [w entries' id hash event name Hk Ht Hp Hd Hid Hhash Hev Hkey Hh He Hname
                   [Hn Hentries]].
  subst entries'.
  apply CLValue_value_DString in Hh, He. subst hash event.
  exists val, id, name. repeat split; assumption.
Qed.

(** X13. [data] never has more entries than the payload has transforms
    with a key that starts with "dictionary"; with no subscribed name it
    has none, so that [success] is false. *)
Theorem parseEvent_data_bound (ts : list TransformRecord) (found : bool)
    (entries_out : list JsValue) :
  parseEvent sub (successful ts)
  = Ret (JsObject [("error", JsNull); ("success", JsBoolean found);
                   ("data", JsArray entries_out)]) ->
  length entries_out <= length (filter (fun val => startsWith (key val) "dictionary") ts)
  /\ (eventNames sub = [] -> entries_out = [] /\ found = false).
Proof.
  intros Hr.
  apply parseEvent_successful_Ret_inv in Hr. destruct Hr as [acc [Hacc Hr]].
  unfold success_result in Hr. injection Hr as -> ->.
  pose proof (reduce_Scanned sub _ _ Hacc) as Hscan.
  split.
  - clear Hacc. induction Hscan as [| val ts acc _ _ IH | val ts entry acc Hs _ IH].
    + simpl. lia.
    + cbn [filter]. destruct (startsWith (key val) "dictionary"); simpl; lia.
    + destruct Hs as [w entries id hash event name Hk]. cbn [filter]. rewrite Hk.
      simpl. lia.
  - intros Hnames.
    assert (Hnil : acc = []).
    { destruct acc as [| entry acc]; [reflexivity |].
      destruct (proj1 (Scanned_In sub _ _ Hscan entry) (or_introl eq_refl))
        as [val [_ Hs]].
      destruct Hs as [w entries id hash event name _ _ _ _ _ _ _ _ _ _ Hname].
      rewrite Hnames in Hname. destruct Hname. }
    rewrite Hnil. split; reflexivity.
Qed.

(** X14. Transforms whose key does not start with "dictionary" are not
    looked at: the extraction is that of the payload without them. *)
Theorem parseEvent_ignores_other_keys (ts : list TransformRecord) :
  parseEvent sub (successful ts)
  = parseEvent sub (successful (filter (fun val => startsWith (key val) "dictionary") ts)).
Proof.
  rewrite !parseEvent_successful. f_equal.
  generalize (@nil JsValue) as acc.
  induction ts as [| val ts IH]; intros acc; [reflexivity |].
  cbn [filter]. destruct (startsWith (key val) "dictionary") eqn:Hk.
  - cbn [reduce]. destruct (reducer sub acc val) as [acc' | e]; simpl; [apply IH | reflexivity].
  - cbn [reduce]. rewrite (reducer_not_candidate sub acc val (startsWith_false_candidate val Hk)).
    simpl. apply IH.
Qed.

(** X15. With a seed reference that the SDK rejects, a candidate whose
    map holds an [event_id] makes the reducer throw the SDK's exception,
    whatever its other fields, and the extraction of every successful
    payload that contains it throws: the SDK's exception, unless an
    earlier transform makes the reducer throw another one. Whatever the
    extraction returns for a successful payload is the clean miss. *)
Theorem parseEvent_rejected_seed_reference (e : exn) :
  CLURef_fromFormattedStr (eventsURef sub) = Throw e ->
  (forall val w entries id,
     candidate val = Some w ->
     CLValueParsers_fromBytesWithType (Buffer_from_hex (bytes w))
       = Ok (CLOption (Some (CLMap entries))) ->
     CLMap_get entries "event_id" = Some id ->
     (forall acc, reducer sub acc val = Throw e)
     /\ (forall ts, In val ts -> throws (parseEvent sub (successful ts)))
     /\ forall pre post,
          Forall (fun t => forall other, reducer sub [] t = Throw other -> other = e) pre ->
          parseEvent sub (successful (pre ++ val :: post)) = Throw e)
  /\ (forall ts r,
        parseEvent sub (successful ts) = Ret r ->
        r = JsObject [("error", JsNull); ("success", JsBoolean false); ("data", JsArray [])]).
Proof.
  intros Href. split.
  - intros val w entries id Hc Hd Hid.
    assert (Hthrow : forall acc, reducer sub acc val = Throw e).
    { intros acc. rewrite (reducer_on_map sub acc val w entries id Hc Hd Hid).
      unfold getDictionaryKeyHash. rewrite Href. reflexivity. }
    split; [exact Hthrow |]. split.
    + intros ts Hin. rewrite parseEvent_successful. apply bind_Throw_l.
      apply (reduce_throws sub ts [] val Hin). exists e. apply Hthrow.
    + intros pre post Hpre.
      rewrite parseEvent_successful.
      assert (Hscan : forall acc, reduce (reducer sub) (pre ++ val :: post) acc = Throw e).
      { induction Hpre as [| t pre Ht _ IH]; intros acc; cbn [app reduce].
        - rewrite Hthrow. reflexivity.
        - rewrite (reducer_acc sub acc t).
          destruct (reducer sub [] t) as [r | other]; simpl.
          + apply IH.
          + rewrite (Ht other eq_refl). reflexivity. }
      rewrite Hscan. reflexivity.
  - intros ts r Hr.
    apply parseEvent_successful_Ret_inv in Hr. destruct Hr as [acc [Hacc ->]].
    destruct acc as [| entry acc]; [reflexivity |].
    pose proof (reduce_Scanned sub _ _ Hacc) as Hscan.
    destruct (proj1 (Scanned_In sub _ _ Hscan entry) (or_introl eq_refl)) as [val [_ Hs]].
    destruct Hs as [w entries id hash event name _ _ _ _ _ _ _ Hkey].
    unfold getDictionaryKeyHash in Hkey. rewrite Href in Hkey. discriminate Hkey.
Qed.

(** X16. [parseEvent] returns a result exactly when the execution result
    has a [Failure], or has a [Success] and the reducer throws on none of
    its transforms; with neither [Failure] nor [Success] it throws. *)
Theorem parseEvent_returns_iff (value : Payload) :
  (returns (parseEvent sub value)
   <-> Failure (outcome value) <> None
       \/ exists success,
            Success (outcome value) = Some success
            /\ Forall (fun val => returns (reducer sub [] val)) (transforms (effect success)))
  /\ (Failure (outcome value) = None -> Success (outcome value) = None ->
      throws (parseEvent sub value)).
Proof.
  unfold parseEvent, outcome.
  destruct (Failure (execution_result (DeployProcessed (body value)))) as [failure |].
  - split.
    + split; [intros _; left; discriminate | intros _; eexists; reflexivity].
    + discriminate.
  - destruct (Success (execution_result (DeployProcessed (body value)))) as [success |].
    + split; [| discriminate]. split.
      * intros [r Hr]. right. exists success. split; [reflexivity |].
        apply bind_Ret_inv in Hr. destruct Hr as [acc [Hacc _]].
        apply Forall_forall. intros val Hin.
        destruct (reducer sub [] val) as [r' | e'] eqn:Hval; [exists r'; reflexivity |].
        assert (Hthrows : throws (reducer sub [] val)) by (exists e'; exact Hval).
        destruct (reduce_throws sub _ [] val Hin Hthrows) as [e'' He''].
        rewrite He'' in Hacc. discriminate Hacc.
      * intros [[] | [success' [[= <-] Hall]]]; [reflexivity |].
        destruct (reduce_returns sub _ [] Hall) as [acc Hacc].
        rewrite Hacc. eexists. reflexivity.
    + split.
      * split; [intros [r Hr]; discriminate Hr |].
        intros [[] | [success [Hs _]]]; [reflexivity | discriminate Hs].
      * intros _ _. eexists. reflexivity.
Qed.

End ExtractionFurther.

(** ** Queries to a node *)

Section QueriesFurther.

Context {rpc : JsonRPC}.

(** X17. [contractDictionaryGetter] returns a value exactly when the node
    reports a latest block and the dictionary item, read at the state root
    hash of that block, is a stored [CLValue]: the value of this one. When
    the item is missing or is not a [CLValue] it throws "Invalid stored
    value". *)
Theorem contractDictionaryGetter_returns_iff (nodeAddress dictionaryItemKey seedUref : string) :
  (forall d,
     contractDictionaryGetter nodeAddress dictionaryItemKey seedUref = Ret d
     <-> exists latest b stored v,
           getLatestBlockInfo nodeAddress = Ret latest
           /\ block latest = Some b
           /\ getDictionaryItemByURef nodeAddress (state_root_hash (header b))
                dictionaryItemKey seedUref = Ret (Some stored)
           /\ storedCLValue stored = Some v
           /\ CLValue_value v = d)
  /\ (forall latest b item,
        getLatestBlockInfo nodeAddress = Ret latest ->
        block latest = Some b ->
        getDictionaryItemByURef nodeAddress (state_root_hash (header b))
          dictionaryItemKey seedUref = Ret item ->
        item = None \/ (exists stored, item = Some stored /\ storedCLValue stored = None) ->
        contractDictionaryGetter nodeAddress dictionaryItemKey seedUref
        = Throw (Error "Invalid stored value")).
Proof.
  unfold contractDictionaryGetter, getStateRootHash. split.
  - intros d. split.
    + intros H.
      apply bind_Ret_inv in H. destruct H as [root [Hroot H]].
      apply bind_Ret_inv in Hroot. destruct Hroot as [latest [Hlatest Hroot]].
      destruct (block latest) as [b |] eqn:Hb; [| discriminate Hroot].
      injection Hroot as <-.
      apply bind_Ret_inv in H. destruct H as [item [Hitem H]].
      destruct item as [stored |]; [| discriminate H].
      destruct (storedCLValue stored) as [v |] eqn:Hv; [| discriminate H].
      injection H as <-.
      exists latest, b, stored, v. repeat split; assumption.
    + intros [latest [b [stored [v [Hlatest [Hb [Hitem [Hv <-]]]]]]]].
      rewrite Hlatest. simpl. rewrite Hb. simpl. rewrite Hitem. simpl. rewrite Hv.
      reflexivity.
  - intros latest b item Hlatest Hb Hitem Hbad.
    rewrite Hlatest. simpl. rewrite Hb. simpl. rewrite Hitem. simpl.
    destruct Hbad as [-> | [stored [-> Hv]]]; [reflexivity |].
    rewrite Hv. reflexivity.
Qed.

(** X18. When the node reports no latest block, [getStateRootHash],
    [getAccountInfo] and [contractDictionaryGetter] throw "Problem when
    calling getLatestBlockInfo", whatever the state and the dictionary
    hold; when the call itself is rejected they throw its exception. *)
Theorem queries_without_block (nodeAddress : string) :
  (forall latest,
     getLatestBlockInfo nodeAddress = Ret latest ->
     block latest = None ->
     getStateRootHash nodeAddress = Throw (Error "Problem when calling getLatestBlockInfo")
     /\ (forall accountHash,
           getAccountInfo nodeAddress accountHash
           = Throw (Error "Problem when calling getLatestBlockInfo"))
     /\ (forall dictionaryItemKey seedUref,
           contractDictionaryGetter nodeAddress dictionaryItemKey seedUref
           = Throw (Error "Problem when calling getLatestBlockInfo")))
  /\ (forall e,
        getLatestBlockInfo nodeAddress = Throw e ->
        getStateRootHash nodeAddress = Throw e
        /\ (forall accountHash, getAccountInfo nodeAddress accountHash = Throw e)
        /\ (forall dictionaryItemKey seedUref,
              contractDictionaryGetter nodeAddress dictionaryItemKey seedUref = Throw e)).
Proof.
  unfold contractDictionaryGetter, getAccountInfo, getStateRootHash. split.
  - intros latest Hlatest Hb. rewrite Hlatest. simpl. rewrite Hb. repeat split.
  - intros e ->. repeat split.
Qed.

End QueriesFurther.

(** * The further statements on sample inputs *)

Lemma camelCased_unchanged_iff_witness :
  camelCased "cep47_mint_one" = "cep47MintOne"
  /\ String.length (camelCased "cep47_mint_one") < String.length "cep47_mint_one"
  /\ camelCased "transfer_1_A" = "transfer_1_A".
Proof.
  split; [reflexivity |]. split.
  - exact (proj2 (camelCased_unchanged_iff "cep47_mint_one") eq_refl).
  - exact (proj2 (proj1 (camelCased_unchanged_iff "transfer_1_A")) eq_refl).
Defined.

Lemma toAccountHashString_contractHashToByteArray_witness :
  toAccountHashString (contractHashToByteArray "AA11bb22Cc") = "aa11bb22cc"
  /\ 2 * length (contractHashToByteArray "AA11bb22Cc") = 10.
Proof.
  exact (toAccountHashString_contractHashToByteArray "AA11bb22Cc" eq_refl).
Defined.

Lemma contractHashToByteArray_truncates_witness :
  contractHashToByteArray "0a0bhash-0c" = [x0a; x0b].
Proof.
  exact (proj1 (contractHashToByteArray_truncates [x0a; x0b] "h" "a" "sh-0c" EmptyString)
           (or_introl eq_refl)).
Defined.

Lemma Sample_digest_length (input : list byte) :
  length (blake_blake2b (Collaborators := Sample.sdk) input None 32) = 32.
Proof.
  simpl. unfold Sample.digest.
  destruct (Byte.of_N (Sample.checksum input)); apply repeat_length.
Qed.

Lemma getDictionaryKeyHash_format_witness :
  String.length Sample.K = 75
  /\ exists digits,
       Sample.K = String.append "dictionary-" digits
       /\ String.length digits = 64
       /\ forallb lower_hex_char (list_ascii_of_string digits) = true.
Proof.
  exact (@getDictionaryKeyHash_format Sample.sdk Sample.R (DString "42") Sample.K
           Sample_digest_length eq_refl).
Defined.

Lemma getDictionaryKeyHash_same_key_witness :
  blake_blake2b (Collaborators := Sample.sdk)
    (data Sample.ref ++ list_byte_of_string "42") None 32
  = blake_blake2b (Collaborators := Sample.sdk)
      (data Sample.ref0 ++ list_byte_of_string "42") None 32.
Proof.
  exact (@getDictionaryKeyHash_same_key Sample.sdk Sample.R Sample.R0
           "42" "42" Sample.K Sample.ref Sample.ref0 eq_refl eq_refl eq_refl eq_refl).
Defined.

Lemma getDictionaryKeyHash_ignores_access_rights_witness :
  accessRights Sample.ref <> accessRights Sample.ref0
  /\ getDictionaryKeyHash (sdk := Sample.sdk) Sample.R (DString "42")
     = getDictionaryKeyHash (sdk := Sample.sdk) Sample.R0 (DString "42")
  /\ parseEvent (sdk := Sample.sdk)
       {| contractPackageHash := Sample.H; eventNames := [MintOne]; eventsURef := Sample.R |}
       (successful [Sample.balance; Sample.mint])
     = parseEvent (sdk := Sample.sdk)
         {| contractPackageHash := Sample.H; eventNames := [MintOne];
            eventsURef := Sample.R0 |}
         (successful [Sample.balance; Sample.mint]).
Proof.
  destruct (@getDictionaryKeyHash_ignores_access_rights Sample.sdk Sample.R Sample.R0
              Sample.ref Sample.ref0 eq_refl eq_refl eq_refl) as [Hkey Hextract].
  split; [discriminate |]. split.
  - apply Hkey.
  - apply Hextract.
Defined.

Lemma parseEvent_concatenation_witness :
  parseEvent (sdk := Sample.sdk) Sample.sub
    (successful ([Sample.map_id; Sample.mint] ++ [Sample.spoofed; Sample.mint]))
  = Ret (JsObject [("error", JsNull); ("success", JsBoolean (true || true));
                   ("data", JsArray ([Sample.mint_entry] ++ [Sample.mint_entry]))])
  /\ parseEvent (sdk := Sample.sdk) Sample.sub
       (successful ([Sample.map_id] ++ [Sample.mint]))
     = Ret (JsObject [("error", JsNull); ("success", JsBoolean (false || true));
                      ("data", JsArray ([] ++ [Sample.mint_entry]))])
  /\ throws (parseEvent (sdk := Sample.sdk) Sample.sub
               (successful ([Sample.bare_map] ++ [Sample.mint])))
  /\ throws (parseEvent (sdk := Sample.sdk) Sample.sub
               (successful ([Sample.mint] ++ [Sample.malformed]))).
Proof.
  split; [| split; [| split]].
  - exact (proj1 (@parseEvent_concatenation Sample.sdk Sample.sub
                    [Sample.map_id; Sample.mint] [Sample.spoofed; Sample.mint])
             true true [Sample.mint_entry] [Sample.mint_entry] eq_refl eq_refl).
  - exact (proj1 (@parseEvent_concatenation Sample.sdk Sample.sub
                    [Sample.map_id] [Sample.mint])
             false true [] [Sample.mint_entry] eq_refl eq_refl).
  - apply (proj2 (@parseEvent_concatenation Sample.sdk Sample.sub
                    [Sample.bare_map] [Sample.mint])).
    left. eexists. reflexivity.
  - apply (proj2 (@parseEvent_concatenation Sample.sdk Sample.sub
                    [Sample.mint] [Sample.malformed])).
    right. eexists. reflexivity.
Defined.

Lemma reducer_rejects_foreign_events_witness :
  reducer (sdk := Sample.sdk)
    {| contractPackageHash := "0000"; eventNames := [MintOne]; eventsURef := Sample.R |}
    [] Sample.mint = Ret []
  /\ reducer (sdk := Sample.sdk)
       {| contractPackageHash := Sample.H; eventNames := [BurnOne; TransferToken];
          eventsURef := Sample.R |}
       [] Sample.mint = Ret [].
Proof.
  split.
  - apply (@reducer_rejects_foreign_events Sample.sdk
             {| contractPackageHash := "0000"; eventNames := [MintOne];
                eventsURef := Sample.R |}
             Sample.mint {| bytes := "01"; parsed := Some JsonNull |} Sample.mint_entries
             (CLString "42") (CLString Sample.H) (CLString "cep47_mint_one") Sample.K
             eq_refl eq_refl eq_refl eq_refl eq_refl eq_refl).
    left. discriminate.
  - apply (@reducer_rejects_foreign_events Sample.sdk
             {| contractPackageHash := Sample.H; eventNames := [BurnOne; TransferToken];
                eventsURef := Sample.R |}
             Sample.mint {| bytes := "01"; parsed := Some JsonNull |} Sample.mint_entries
             (CLString "42") (CLString Sample.H) (CLString "cep47_mint_one") Sample.K
             eq_refl eq_refl eq_refl eq_refl eq_refl eq_refl).
    right. intros name [<- | [<- | []]]; discriminate.
Defined.

Lemma parseEvent_entries_backed_witness :
  exists val id name,
    In val [Sample.balance; Sample.mint]
    /\ startsWith (key val) "dictionary" = true
    /\ CLMap_get Sample.mint_entries "event_id" = Some id
    /\ getDictionaryKeyHash (sdk := Sample.sdk) Sample.R (CLValue_value id) = Ret (key val)
    /\ CLMap_get Sample.mint_entries "contract_package_hash" = Some (CLString Sample.H)
    /\ CLMap_get Sample.mint_entries "event_type" = Some (CLString "cep47_mint_one")
    /\ In name [MintOne]
    /\ "cep47_mint_one" = CEP47Events_value name.
Proof.
  apply (@parseEvent_entries_backed Sample.sdk Sample.sub [Sample.balance; Sample.mint]
           true [Sample.mint_entry] "cep47_mint_one" Sample.mint_entries eq_refl).
  left. reflexivity.
Defined.

Lemma parseEvent_data_bound_witness :
  length [Sample.mint_entry]
  <= length (filter (fun val => startsWith (key val) "dictionary")
               [Sample.balance; Sample.mint; Sample.spoofed])
  /\ parseEvent (sdk := Sample.sdk)
       {| contractPackageHash := Sample.H; eventNames := []; eventsURef := Sample.R |}
       (successful [Sample.mint])
     = Ret (JsObject [("error", JsNull); ("success", JsBoolean false); ("data", JsArray [])]).
Proof.
  split.
  - exact (proj1 (@parseEvent_data_bound Sample.sdk Sample.sub
                    [Sample.balance; Sample.mint; Sample.spoofed] true [Sample.mint_entry]
                    eq_refl)).
  - destruct (proj2 (@parseEvent_data_bound Sample.sdk
                       {| contractPackageHash := Sample.H; eventNames := [];
                          eventsURef := Sample.R |}
                       [Sample.mint] false [] eq_refl) eq_refl) as [_ _].
    reflexivity.
Defined.

Lemma parseEvent_rejected_seed_reference_witness :
  parseEvent (sdk := Sample.sdk)
    {| contractPackageHash := Sample.H; eventNames := [MintOne]; eventsURef := "0102-007" |}
    (successful [Sample.empty_option; Sample.mint; Sample.malformed])
  = Throw (Error "Prefix is not 'uref-'")
  /\ throws (parseEvent (sdk := Sample.sdk)
               {| contractPackageHash := Sample.H; eventNames := [MintOne];
                  eventsURef := "0102-007" |}
               (successful [Sample.malformed; Sample.mint]))
  /\ parseEvent (sdk := Sample.sdk)
       {| contractPackageHash := Sample.H; eventNames := [MintOne]; eventsURef := "0102-007" |}
       (successful [Sample.balance; Sample.empty_option])
     = Ret (JsObject [("error", JsNull); ("success", JsBoolean false); ("data", JsArray [])]).
Proof.
  destruct (@parseEvent_rejected_seed_reference Sample.sdk
              {| contractPackageHash := Sample.H; eventNames := [MintOne];
                 eventsURef := "0102-007" |}
              (Error "Prefix is not 'uref-'") eq_refl) as [Hthrow Hmiss].
  destruct (Hthrow Sample.mint {| bytes := "01"; parsed := Some JsonNull |}
              Sample.mint_entries (CLString "42") eq_refl eq_refl eq_refl)
    as [_ [Hany Hfirst]].
  split; [| split].
  - apply (Hfirst [Sample.empty_option] [Sample.malformed]).
    repeat constructor. intros other Hother. discriminate Hother.
  - apply Hany. simpl. right. left. reflexivity.
  - rewrite <- (Hmiss [Sample.balance; Sample.empty_option] _ eq_refl). reflexivity.
Defined.

Lemma parseEvent_returns_iff_witness :
  returns (parseEvent (sdk := Sample.sdk) Sample.sub Sample.both)
  /\ returns (parseEvent (sdk := Sample.sdk) Sample.sub
                (successful [Sample.map_id; Sample.mint]))
  /\ ~ returns (parseEvent (sdk := Sample.sdk) Sample.sub
                  (successful [Sample.bare_map; Sample.mint]))
  /\ throws (parseEvent (sdk := Sample.sdk) Sample.sub
               (payload_of {| Failure := None; Success := None |})).
Proof.
  split; [| split; [| split]].
  - apply (proj1 (@parseEvent_returns_iff Sample.sdk Sample.sub Sample.both)).
    left. discriminate.
  - apply (proj1 (@parseEvent_returns_iff Sample.sdk Sample.sub
                    (successful [Sample.map_id; Sample.mint]))).
    right. exists {| effect := {| transforms := [Sample.map_id; Sample.mint] |} |}.
    split; [reflexivity |]. simpl. repeat constructor.
    + exists []. reflexivity.
    + exists [Sample.mint_entry]. reflexivity.
  - intros Hreturns.
    apply (proj1 (@parseEvent_returns_iff Sample.sdk Sample.sub
                    (successful [Sample.bare_map; Sample.mint]))) in Hreturns.
    destruct Hreturns as [Hfailure | [success [Hsuccess Hall]]].
    + apply Hfailure. reflexivity.
    + injection Hsuccess as <-. simpl in Hall.
      inversion Hall as [| ? ? [r Hr] _]. discriminate Hr.
  - exact (proj2 (@parseEvent_returns_iff Sample.sdk Sample.sub
                    (payload_of {| Failure := None; Success := None |})) eq_refl eq_refl).
Defined.

Lemma contractDictionaryGetter_returns_iff_witness :
  contractDictionaryGetter (rpc := SampleNode.rpc) "http://localhost:11101/rpc" "42"
    Sample.R
  = Ret (DOption (Some (CLMap Sample.mint_entries)))
  /\ contractDictionaryGetter (rpc := SampleNode.rpc) "http://localhost:11101/rpc" "43"
       Sample.R
     = Throw (Error "Invalid stored value").
Proof.
  destruct (@contractDictionaryGetter_returns_iff SampleNode.rpc
              "http://localhost:11101/rpc" "42" Sample.R) as [Hiff _].
  destruct (@contractDictionaryGetter_returns_iff SampleNode.rpc
              "http://localhost:11101/rpc" "43" Sample.R) as [_ Hinvalid].
  split.
  - apply Hiff.
    exists {| block := Some {| header := {| state_root_hash := SampleNode.root |} |} |},
           {| header := {| state_root_hash := SampleNode.root |} |},
           {| storedCLValue := Some (CLOption (Some (CLMap Sample.mint_entries)));
              Account := None |},
           (CLOption (Some (CLMap Sample.mint_entries))).
    repeat split.
  - apply (Hinvalid
             {| block := Some {| header := {| state_root_hash := SampleNode.root |} |} |}
             {| header := {| state_root_hash := SampleNode.root |} |}
             (Some {| storedCLValue := None; Account := None |}) eq_refl eq_refl eq_refl).
    right. eexists. split; reflexivity.
Defined.

Lemma queries_without_block_witness :
  getAccountInfo (rpc := SampleNode.rpc) "http://localhost:11102/rpc" "account-hash-0101"
  = Throw (Error "Problem when calling getLatestBlockInfo")
  /\ contractDictionaryGetter (rpc := SampleNode.rpc) "http://localhost:11103/rpc" "42"
       Sample.R
     = Throw (Error "connect ECONNREFUSED").
Proof.
  destruct (@queries_without_block SampleNode.rpc "http://localhost:11102/rpc")
    as [Hnone _].
  destruct (@queries_without_block SampleNode.rpc "http://localhost:11103/rpc")
    as [_ Hrejected].
  split.
  - destruct (Hnone {| block := None |} eq_refl eq_refl) as [_ [Haccount _]].
    apply Haccount.
  - destruct (Hrejected (Error "connect ECONNREFUSED") eq_refl) as [_ [_ Hgetter]].
    apply Hgetter.
Defined.
